(** * SQLite [INSERT ... ON CONFLICT] statement builder

    A shallow embedding of [lib/sqlalchemy/dialects/sqlite/dml.py]:
    the generative [Insert] builder with its two conflict methods, the
    [OnConflictClause] hierarchy and the memoized [excluded] namespace.

    Python objects live in an object store; a reference is an address in
    that store.  Every method is a computation over the store that either
    returns a value or raises an exception, so that aliasing, cloning and
    caching can be observed. *)

From Stdlib Require Import ZArith.
From stdpp Require Import gmap strings list fin_maps.

Set Warnings "-register-all".
Local Open Scope string_scope.
Local Open Scope list_scope.

(** ** Values and objects *)

(** Addresses of the object store. Objects are never freed, so the store
    is an array that only grows. *)
Abbreviation loc := nat (only parsing).

(** Python values as this module sees them.  A [dict] keeps its items in
    insertion order (an association list; a well-formed [dict] has no
    repeated key, which nothing below depends on).  Lists, tuples and
    dicts are held by value: this module stores and reads them and never
    mutates one.  [VExpr] is a node owned by the expression library (a
    table, a column handle, a predicate), known here only by its
    identity; [VRef] refers to an object of the store; [VMapping] is a
    mapping object of a type other than [dict] (a read-only proxy, a
    user-defined [Mapping]), with its items. *)
Inductive value : Type :=
| VNone
| VInt (z : Z)
| VStr (s : string)
| VTuple (vs : list value)
| VList (vs : list value)
| VDict (items : list (value * value))
| VExpr (id : positive)
| VRef (l : loc)
| VMapping (items : list (value * value)).

(** The classes whose instances this module allocates. *)
Inductive class : Type :=
| Insert
| OnConflictDoNothing
| OnConflictDoUpdate
| Alias
| ColumnCollection.

(** An object: its class and its instance [__dict__]. *)
Record object : Type := Object {
  cls : class;
  dict : gmap string value
}.

Abbreviation store := (list object) (only parsing).

Inductive exn : Type :=
| ValueError (msg : string)
| ArgumentError (msg : string)
| AttributeError (name : string).

(** ** The store-and-exception monad *)

(** [Fault] marks an access through an address that holds no object; no
    Python execution reaches it, since references are always live. *)
Inductive outcome (A : Type) : Type :=
| Ok (a : A)
| Raise (e : exn)
| Fault.
Arguments Ok {A} a.
Arguments Raise {A} e.
Arguments Fault {A}.

Definition M (A : Type) : Type := store -> outcome A * store.

Definition ret {A} (a : A) : M A := fun s => (Ok a, s).

Definition bind {A B} (c : M A) (k : A -> M B) : M B :=
  fun s =>
    match c s with
    | (Ok a, s') => k a s'
    | (Raise e, s') => (Raise e, s')
    | (Fault, s') => (Fault, s')
    end.

Definition raise {A} (e : exn) : M A := fun s => (Raise e, s).

Declare Scope py_scope.
Delimit Scope py_scope with py.
Notation "'let*' x ':=' c 'in' k" := (bind c (fun x => k))
  (at level 10, x name, c at level 100, k at level 200) : py_scope.
Notation "c ';;;' k" := (bind c (fun _ => k))
  (at level 100, k at level 200, right associativity) : py_scope.
Open Scope py_scope.

(** The outcome of a call into the Coercion Service: the canonical
    column reference, or a resolution failure, which reaches this module
    as a raised [ArgumentError] carrying the service's message. *)
Definition coerced (r : string + value) : M value :=
  match r with
  | inl msg => raise (ArgumentError msg)
  | inr col => ret col
  end.

(** A list comprehension [[f x for x in xs]]: elements are evaluated left
    to right and the first exception aborts the whole comprehension. *)
Fixpoint comprehension {A B} (f : A -> M B) (xs : list A) : M (list B) :=
  match xs with
  | [] => ret []
  | x :: xs' =>
      let* y := f x in
      let* ys := comprehension f xs' in
      ret (y :: ys)
  end.

(** ** Object primitives *)

(** [cls.__new__(cls)]: a fresh object with an empty [__dict__], placed at
    the first unused address. *)
Definition new_object (c : class) : M loc :=
  fun s => (Ok (length s), s ++ [Object c ∅]).

(** [self.name], looked up in the instance [__dict__]. *)
Definition getattr (self : loc) (name : string) : M value :=
  fun s =>
    match s !! self with
    | Some o =>
        match dict o !! name with
        | Some v => (Ok v, s)
        | None => (Raise (AttributeError name), s)
        end
    | None => (Fault, s)
    end.

(** [self.name = v]: in-place update of the instance [__dict__]. *)
Definition setattr (self : loc) (name : string) (v : value) : M unit :=
  fun s =>
    match s !! self with
    | Some o => (Ok tt, <[self := Object (cls o) (<[name := v]> (dict o))]> s)
    | None => (Fault, s)
    end.

(** [x is None] *)
Definition is_None (v : value) : bool :=
  match v with VNone => true | _ => false end.

(** [isinstance(x, dict)] *)
Definition isinstance_dict (v : value) : bool :=
  match v with VDict _ => true | _ => false end.

(** Truth value of [x] as [not x] tests it: [None], zero and empty
    containers are false.  Object references use the default truth of
    objects; this module only ever tests a value already known to be a
    [dict]. *)
Definition truthy (v : value) : bool :=
  match v with
  | VNone => false
  | VInt z => negb (Z.eqb z 0)
  | VStr s => negb (String.eqb s EmptyString)
  | VTuple vs | VList vs => negb (Nat.eqb (length vs) 0)
  | VDict items | VMapping items => negb (Nat.eqb (length items) 0)
  | VExpr _ | VRef _ => true
  end.

(** [d.items()] *)
Definition items (v : value) : M (list (value * value)) :=
  match v with
  | VDict kvs | VMapping kvs => ret kvs
  | _ => raise (AttributeError "items")
  end.

(** ** Collaborators declared outside this module *)

(** Roles understood by the Coercion Service ([sql.roles]). *)
Inductive role : Type :=
| DMLColumnRole.

(** Modelled from the spec: [Generative._generate], the clone step of the
    [@_generative] decorator, whose source is not part of this module.
    The clone is a new instance of the receiver's class holding a shallow
    copy of the receiver's [__dict__] (same table reference, same
    unrelated fields). *)
Definition _generate (self : loc) : M loc :=
  fun s =>
    match s !! self with
    | Some o => (Ok (length s), s ++ [Object (cls o) (dict o)])
    | None => (Fault, s)
    end.

(** Modelled from the spec: the [@_generative] decorator.  The decorated
    method body runs with [self] bound to the clone and the clone is what
    the caller receives. *)
Definition _generative (fn : loc -> M unit) (self : loc) : M loc :=
  let* self' := _generate self in
  fn self' ;;;
  ret self'.

(** Modelled from the spec: [util.memoized_property], a read-only
    attribute computed on first access and then kept in the instance
    [__dict__] under the property's name, where later reads find it. *)
Definition memoized_property
    (name : string) (fget : loc -> M value) (obj : loc) : M value :=
  fun s =>
    match s !! obj with
    | Some o =>
        match dict o !! name with
        | Some cached => (Ok cached, s)
        | None =>
            (let* result := fget obj in
             setattr obj name result ;;;
             ret result) s
        end
    | None => (Fault, s)
    end.

(** Modelled from the spec: [sql.expression.alias], which builds a new
    alias node over a relation under the given name. *)
Definition alias (selectable : value) (name : string) : M loc :=
  let* a := new_object Alias in
  setattr a "element" selectable ;;;
  setattr a "name" (VStr name) ;;;
  ret a.

(** Modelled from the spec: the [.columns] namespace of an alias, a
    column-reference mapping that belongs to that alias. *)
Definition columns (a : loc) : M value :=
  let* c := new_object ColumnCollection in
  setattr c "selectable" (VRef a) ;;;
  ret (VRef c).

(** Modelled from the spec: the public factory [insert(table)], which
    binds a new builder to its target relation; the base INSERT
    constructor is not part of this module. *)
Definition insert (table : value) : M loc :=
  let* b := new_object Insert in
  setattr b "table" table ;;;
  ret b.

(** Modelled from the spec: the post-values clause of a builder is
    nullable; a builder that never had one assigned reads as [None]. *)
Definition _post_values_clause (o : object) : value :=
  default VNone (dict o !! "_post_values_clause").

(** ** The classes of [dialects/sqlite/dml.py] *)

Section Dml.

(** [coercions.expect(role, key)]: the Coercion Service, which returns
    the canonical column reference of [key] or fails to resolve it. *)
Variable expect : role -> value -> string + value.

(** [__visit_name__]: the dispatch key a class declares in this
    module, if it declares one here. *)
Definition __visit_name__ (c : class) : option string :=
  match c with
  | OnConflictDoNothing => Some "on_conflict_do_nothing"
  | OnConflictDoUpdate => Some "on_conflict_do_update"
  | Insert | Alias | ColumnCollection => None
  end.

(** [OnConflictClause.__init__(self, index_elements, index_where)].
    The chained assignment of the [else] branch assigns [None] to its
    targets from left to right. *)
Definition OnConflictClause__init__
    (self : loc) (index_elements index_where : value) : M unit :=
  if negb (is_None index_elements) then
    setattr self "constraint_target" VNone ;;;
    setattr self "inferred_target_elements" index_elements ;;;
    setattr self "inferred_target_whereclause" index_where
  else
    setattr self "constraint_target" VNone ;;;
    setattr self "inferred_target_elements" VNone ;;;
    setattr self "inferred_target_whereclause" VNone.

(** [OnConflictDoNothing(index_elements, index_where)]: the class adds
    nothing to the inherited constructor. *)
Definition OnConflictDoNothing_
    (index_elements index_where : value) : M value :=
  let* self := new_object OnConflictDoNothing in
  OnConflictClause__init__ self index_elements index_where ;;;
  ret (VRef self).

(** [OnConflictDoUpdate.__init__(self, index_elements, index_where,
    set_, where)] *)
Definition OnConflictDoUpdate__init__
    (self : loc) (index_elements index_where set_ where_ : value)
    : M unit :=
  OnConflictClause__init__ self index_elements index_where ;;;
  if negb (isinstance_dict set_) || negb (truthy set_) then
    raise (ValueError "set parameter must be a non-empty dictionary")
  else
    let* kvs := items set_ in
    let* pairs :=
      comprehension
        (fun kv : value * value =>
           let* col := coerced (expect DMLColumnRole (fst kv)) in
           ret (VTuple [col; snd kv]))
        kvs in
    setattr self "update_values_to_set" (VList pairs) ;;;
    setattr self "update_whereclause" where_.

(** [OnConflictDoUpdate(index_elements, index_where, set_, where)] *)
Definition OnConflictDoUpdate_
    (index_elements index_where set_ where_ : value) : M value :=
  let* self := new_object OnConflictDoUpdate in
  OnConflictDoUpdate__init__ self index_elements index_where set_ where_ ;;;
  ret (VRef self).

(** The body of [Insert.excluded], the function under the decorator. *)
Definition excluded_fget (self : loc) : M value :=
  let* table := getattr self "table" in
  let* a := alias table "excluded" in
  columns a.

(** [Insert.excluded], a [@util.memoized_property]. *)
Definition excluded : loc -> M value :=
  memoized_property "excluded" excluded_fget.

(** [Insert.on_conflict_do_update]; an omitted argument is its default
    [None]. *)
Definition on_conflict_do_update
    (self : loc) (index_elements index_where set_ where_ : value)
    : M loc :=
  _generative
    (fun self =>
       let* clause :=
         OnConflictDoUpdate_ index_elements index_where set_ where_ in
       setattr self "_post_values_clause" clause)
    self.

(** [Insert.on_conflict_do_nothing] *)
Definition on_conflict_do_nothing
    (self : loc) (index_elements index_where : value) : M loc :=
  _generative
    (fun self =>
       let* clause := OnConflictDoNothing_ index_elements index_where in
       setattr self "_post_values_clause" clause)
    self.

End Dml.

(** Modelled from the spec: a Coercion Service for the examples below.
    A column name or a column handle is its own canonical reference;
    any other key cannot be resolved. *)
Definition expect_columns (r : role) (key : value) : string + value :=
  match key with
  | VStr _ | VExpr _ => inr key
  | _ => inl "SET key is not a column of the table"
  end.

(** ** Observers used to state the properties *)

(** A conflict-configuration call on a builder, with its arguments. *)
Inductive conflict_call : Type :=
| DoNothing (index_elements index_where : value)
| DoUpdate (index_elements index_where set_ where_ : value).

Definition invoke (expect : role -> value -> string + value)
    (self : loc) (c : conflict_call) : M loc :=
  match c with
  | DoNothing ie iw => on_conflict_do_nothing self ie iw
  | DoUpdate ie iw set_ w => on_conflict_do_update expect self ie iw set_ w
  end.

Definition index_elements_of (c : conflict_call) : value :=
  match c with DoNothing ie _ | DoUpdate ie _ _ _ => ie end.

Definition index_where_of (c : conflict_call) : value :=
  match c with DoNothing _ iw | DoUpdate _ iw _ _ => iw end.

(** The dispatch key the Renderer expects for each kind of call. *)
Definition dispatch_key (c : conflict_call) : string :=
  match c with
  | DoNothing _ _ => "on_conflict_do_nothing"
  | DoUpdate _ _ _ _ => "on_conflict_do_update"
  end.

(** [attached s b act]: in store [s], builder [b] holds a reference, in
    its post-values clause, to the object [act]. *)
Definition attached (s : store) (b : loc) (act : object) : Prop :=
  exists ob a,
    s !! b = Some ob /\ _post_values_clause ob = VRef a /\ s !! a = Some act.

Definition has_attr (o : object) (name : string) : bool :=
  bool_decide (is_Some (dict o !! name)).

Definition has_target (o : object) : bool :=
  has_attr o "constraint_target"
  && has_attr o "inferred_target_elements"
  && has_attr o "inferred_target_whereclause".

(** A Conflict Action the Renderer can consume: one of the two kinds,
    with every field its constructor sets; a Do-Update carries a
    non-empty assignment list. *)
Definition fully_formed (act : object) : bool :=
  match cls act with
  | OnConflictDoNothing => has_target act
  | OnConflictDoUpdate =>
      has_target act
      && match dict act !! "update_values_to_set" with
         | Some (VList (_ :: _)) => true
         | _ => false
         end
      && has_attr act "update_whereclause"
  | _ => false
  end.

(** A builder with no post-values clause, or with one that refers to a
    fully formed action of the store; objects of other classes pass. *)
Definition presentable (s : store) (ob : object) : bool :=
  match cls ob with
  | Insert =>
      match _post_values_clause ob with
      | VNone => true
      | VRef a =>
          match s !! a with
          | Some act => fully_formed act
          | None => false
          end
      | _ => false
      end
  | _ => true
  end.

(** Every builder of the store can be handed to the Renderer. *)
Definition renderable (s : store) : bool := forallb (presentable s) s.

(** ** Closed forms

    What the constructors and methods compute, written without the
    monad; the lemmas of the next sections prove that the code above
    computes exactly these. *)

(** The three Conflict Target fields written over an instance dict. *)
Definition with_target (ie iw : value) (d : gmap string value)
    : gmap string value :=
  if negb (is_None ie) then
    <["inferred_target_whereclause" := iw]>
      (<["inferred_target_elements" := ie]>
         (<["constraint_target" := VNone]> d))
  else
    <["inferred_target_whereclause" := VNone]>
      (<["inferred_target_elements" := VNone]>
         (<["constraint_target" := VNone]> d)).

(** The assignment pairs of a SET mapping, in order, or the message of
    the first key the Coercion Service cannot resolve. *)
Fixpoint assignments (expect : role -> value -> string + value)
    (kvs : list (value * value)) : string + list value :=
  match kvs with
  | [] => inr []
  | kv :: kvs' =>
      match expect DMLColumnRole (fst kv) with
      | inl msg => inl msg
      | inr col =>
          match assignments expect kvs' with
          | inl msg => inl msg
          | inr ps => inr (VTuple [col; snd kv] :: ps)
          end
      end
  end.

(** The builder the call returns: the receiver's class and fields, with
    the post-values clause referring to the action just built. *)
Definition clone_with_clause (o : object) (a : loc) : object :=
  Object (cls o) (<["_post_values_clause" := VRef a]> (dict o)).

Definition do_nothing_action (ie iw : value) : object :=
  Object OnConflictDoNothing (with_target ie iw ∅).

Definition do_update_action (ie iw w : value) (ps : list value) : object :=
  Object OnConflictDoUpdate
    (<["update_whereclause" := w]>
       (<["update_values_to_set" := VList ps]> (with_target ie iw ∅))).

(** The Do-Update object as the failed constructor leaves it behind. *)
Definition abandoned_action (ie iw : value) : object :=
  Object OnConflictDoUpdate (with_target ie iw ∅).

(** How the validation of [set_] ends: with the exception raised, or
    with the assignment pairs. *)
Definition validated (expect : role -> value -> string + value)
    (set_ : value) : exn + list value :=
  match set_ with
  | VDict (kv :: kvs) =>
      match assignments expect (kv :: kvs) with
      | inl msg => inl (ArgumentError msg)
      | inr ps => inr ps
      end
  | _ => inl (ValueError "set parameter must be a non-empty dictionary")
  end.

(** The action a call builds when it succeeds, or the exception it
    raises. *)
Definition built (expect : role -> value -> string + value)
    (c : conflict_call) : exn + object :=
  match c with
  | DoNothing ie iw => inr (do_nothing_action ie iw)
  | DoUpdate ie iw set_ w =>
      match validated expect set_ with
      | inl e => inl e
      | inr ps => inr (do_update_action ie iw w ps)
      end
  end.

(** ** Using the module: transitions and sample data *)

(** [is_builder s b]: address [b] holds an [Insert] statement. *)
Definition is_builder (s : store) (b : loc) : Prop :=
  exists o, s !! b = Some o /\ cls o = Insert.

(** One use of the public surface: the factory, a conflict call on a
    builder, or a read of a builder's [excluded]; the transition is
    taken whether the operation returns or raises. *)
Inductive step (expect : role -> value -> string + value)
    : store -> store -> Prop :=
| step_insert table (s : store) r (s' : store) :
    insert table s = (r, s') -> step expect s s'
| step_call b c (s : store) r (s' : store) :
    is_builder s b -> invoke expect b c s = (r, s') -> step expect s s'
| step_excluded b (s : store) r (s' : store) :
    is_builder s b -> excluded b s = (r, s') -> step expect s s'.

(** The stores a program can reach from the empty store. *)
Definition reachable (expect : role -> value -> string + value)
    (s : store) : Prop :=
  rtc (step expect) [] s.

(** A table, a builder bound to it, and the store that [insert(users)]
    leaves behind when run on an empty store. *)
Definition users : value := VExpr 1.
Definition stmt : object := Object Insert (<["table" := users]> ∅).
Definition base_store : store := [stmt].

(** ** Further observers *)

(** [isinstance(x, collections.abc.Mapping)]: a [dict] or a mapping of
    another type. *)
Definition is_mapping (v : value) : bool :=
  match v with
  | VDict _ | VMapping _ => true
  | _ => false
  end.

(** The keys [OnConflictDoUpdate.__init__] gets to read, in insertion
    order: those of a [dict]; any other value is turned down before its
    items are looked at. *)
Definition set_keys (set_ : value) : list value :=
  match set_ with
  | VDict kvs => map fst kvs
  | _ => []
  end.

(** Modelled from the spec: a stricter Coercion Service for the
    examples, which resolves column names only. *)
Definition expect_names (r : role) (key : value) : string + value :=
  match key with
  | VStr _ => inr key
  | _ => inl "SET key is not a column name"
  end.

(** [unchanged_but_cache ob ob']: [ob'] is [ob] except, possibly, for an
    [excluded] entry that [ob] did not have; only an [Insert] may differ
    at all. *)
Definition unchanged_but_cache (ob ob' : object) : Prop :=
  cls ob' = cls ob
  /\ (forall name v, dict ob !! name = Some v -> dict ob' !! name = Some v)
  /\ (forall name, name <> "excluded" -> dict ob' !! name = dict ob !! name)
  /\ (cls ob <> Insert -> ob' = ob).

(** Instances of the two [OnConflictClause] subclasses. *)
Definition is_clause (o : object) : bool :=
  match cls o with
  | OnConflictDoNothing | OnConflictDoUpdate => true
  | _ => false
  end.

(** The shape [OnConflictClause.__init__] gives the target fields:
    [constraint_target] is [None], and a where-clause is present only
    together with elements. *)
Definition target_shaped (o : object) : Prop :=
  dict o !! "constraint_target" = Some VNone
  /\ exists ie iw,
       dict o !! "inferred_target_elements" = Some ie
       /\ dict o !! "inferred_target_whereclause" = Some iw
       /\ (ie = VNone -> iw = VNone).

(** ** Stepping through the monad *)

Lemma bind_Ok {A B} (c : M A) (k : A -> M B) s a s' :
  c s = (Ok a, s') -> bind c k s = k a s'.
Proof. unfold bind. intros ->. reflexivity. Qed.

Lemma bind_Raise {A B} (c : M A) (k : A -> M B) s e s' :
  c s = (Raise e, s') -> bind c k s = (Raise e, s').
Proof. unfold bind. intros ->. reflexivity. Qed.

Lemma bind_Fault {A B} (c : M A) (k : A -> M B) s s' :
  c s = (Fault, s') -> bind c k s = (Fault, s').
Proof. unfold bind. intros ->. reflexivity. Qed.

Lemma object_eta (o : object) : Object (cls o) (dict o) = o.
Proof. destruct o; reflexivity. Qed.

(** Writing an attribute of the object that sits right after the prefix
    [s] touches that object only. *)
Lemma setattr_middle (s rest : store) (o : object) name v :
  setattr (length s) name v (s ++ o :: rest)
  = (Ok tt, s ++ Object (cls o) (<[name := v]> (dict o)) :: rest).
Proof.
  unfold setattr.
  rewrite list_lookup_middle by reflexivity.
  rewrite insert_app_r_alt by lia.
  rewrite Nat.sub_diag. reflexivity.
Qed.

Lemma OnConflictClause__init__middle (s rest : store) (o : object) ie iw :
  OnConflictClause__init__ (length s) ie iw (s ++ o :: rest)
  = (Ok tt, s ++ Object (cls o) (with_target ie iw (dict o)) :: rest).
Proof.
  unfold OnConflictClause__init__, with_target.
  destruct (negb (is_None ie));
    repeat (erewrite bind_Ok by apply setattr_middle; cbn [cls dict]);
    apply setattr_middle.
Qed.

(** The constructor of a Do-Nothing action allocates one object and
    fills in its target. *)
Lemma OnConflictDoNothing_run (s : store) ie iw :
  OnConflictDoNothing_ ie iw s
  = (Ok (VRef (length s)),
     s ++ [Object OnConflictDoNothing (with_target ie iw ∅)]).
Proof.
  unfold OnConflictDoNothing_.
  erewrite bind_Ok by reflexivity.
  erewrite bind_Ok by apply OnConflictClause__init__middle.
  reflexivity.
Qed.

Section Coercion.
Variable expect : role -> value -> string + value.

(** The comprehension over the items never touches the store and
    agrees with [assignments]. *)
Lemma comprehension_assignments (kvs : list (value * value)) (s : store) :
  comprehension
    (fun kv : value * value =>
       let* col := coerced (expect DMLColumnRole (fst kv)) in
       ret (VTuple [col; snd kv])) kvs s
  = (match assignments expect kvs with
     | inl msg => Raise (ArgumentError msg)
     | inr ps => Ok ps
     end, s).
Proof.
  revert s. induction kvs as [|kv kvs IH]; intros s; cbn.
  - reflexivity.
  - unfold bind at 1. unfold bind at 1.
    destruct (expect DMLColumnRole (fst kv)) as [msg|col]; cbn.
    + reflexivity.
    + unfold bind. rewrite IH.
      destruct (assignments expect kvs); reflexivity.
Qed.

Lemma OnConflictDoUpdate__init__invalid (s rest : store) o ie iw set_ w :
  negb (isinstance_dict set_) || negb (truthy set_) = true ->
  OnConflictDoUpdate__init__ expect (length s) ie iw set_ w (s ++ o :: rest)
  = (Raise (ValueError "set parameter must be a non-empty dictionary"),
     s ++ Object (cls o) (with_target ie iw (dict o)) :: rest).
Proof.
  intros Hbad. unfold OnConflictDoUpdate__init__.
  erewrite bind_Ok by apply OnConflictClause__init__middle.
  rewrite Hbad. reflexivity.
Qed.

Lemma OnConflictDoUpdate__init__unresolved
    (s rest : store) o ie iw kv kvs w msg :
  assignments expect (kv :: kvs) = inl msg ->
  OnConflictDoUpdate__init__ expect (length s) ie iw (VDict (kv :: kvs)) w
    (s ++ o :: rest)
  = (Raise (ArgumentError msg),
     s ++ Object (cls o) (with_target ie iw (dict o)) :: rest).
Proof.
  intros Hmsg. unfold OnConflictDoUpdate__init__.
  erewrite bind_Ok by apply OnConflictClause__init__middle.
  cbn [isinstance_dict truthy length Nat.eqb negb orb items].
  erewrite bind_Ok by reflexivity.
  erewrite bind_Raise; [reflexivity|].
  rewrite comprehension_assignments, Hmsg. reflexivity.
Qed.

Lemma OnConflictDoUpdate__init__resolved
    (s rest : store) o ie iw kv kvs w ps :
  assignments expect (kv :: kvs) = inr ps ->
  OnConflictDoUpdate__init__ expect (length s) ie iw (VDict (kv :: kvs)) w
    (s ++ o :: rest)
  = (Ok tt,
     s ++ Object (cls o)
            (<["update_whereclause" := w]>
               (<["update_values_to_set" := VList ps]>
                  (with_target ie iw (dict o)))) :: rest).
Proof.
  intros Hps. unfold OnConflictDoUpdate__init__.
  erewrite bind_Ok by apply OnConflictClause__init__middle.
  cbn [isinstance_dict truthy length Nat.eqb negb orb items].
  erewrite bind_Ok by reflexivity.
  erewrite bind_Ok by (rewrite comprehension_assignments, Hps; reflexivity).
  erewrite bind_Ok by apply setattr_middle.
  cbn [cls dict]. apply setattr_middle.
Qed.

End Coercion.

(** ** What each call does to the store *)

Lemma _generate_run (s : store) b o :
  s !! b = Some o -> _generate b s = (Ok (length s), s ++ [o]).
Proof. unfold _generate. intros ->. rewrite object_eta. reflexivity. Qed.

Lemma on_conflict_do_nothing_run (s : store) b o ie iw :
  s !! b = Some o ->
  on_conflict_do_nothing b ie iw s
  = (Ok (length s),
     s ++ [clone_with_clause o (S (length s)); do_nothing_action ie iw]).
Proof.
  intros Hb. unfold on_conflict_do_nothing, _generative.
  erewrite bind_Ok by (apply _generate_run, Hb).
  erewrite bind_Ok; [reflexivity|].
  erewrite bind_Ok by apply OnConflictDoNothing_run.
  rewrite <- app_assoc. cbn [app].
  rewrite setattr_middle, length_app, Nat.add_1_r. reflexivity.
Qed.

Lemma on_conflict_do_nothing_dangling (s : store) b ie iw :
  s !! b = None -> on_conflict_do_nothing b ie iw s = (Fault, s).
Proof.
  intros Hb. unfold on_conflict_do_nothing, _generative, _generate, bind.
  rewrite Hb. reflexivity.
Qed.

Section Calls.
Variable expect : role -> value -> string + value.

Lemma invalid_set_cases (set_ : value) :
  negb (isinstance_dict set_) || negb (truthy set_) = false
  <-> exists kv kvs, set_ = VDict (kv :: kvs).
Proof.
  split.
  - destruct set_ as [| | | | |[|kv kvs]| | |]; cbn; try discriminate.
    intros _. eauto.
  - intros (kv & kvs & ->). reflexivity.
Qed.

Lemma OnConflictDoUpdate_run (s : store) ie iw set_ w :
  OnConflictDoUpdate_ expect ie iw set_ w s
  = match validated expect set_ with
    | inl e => (Raise e, s ++ [abandoned_action ie iw])
    | inr ps => (Ok (VRef (length s)), s ++ [do_update_action ie iw w ps])
    end.
Proof.
  unfold OnConflictDoUpdate_.
  erewrite bind_Ok by reflexivity.
  destruct (negb (isinstance_dict set_) || negb (truthy set_)) eqn:Hbad.
  - erewrite bind_Raise
      by (apply OnConflictDoUpdate__init__invalid, Hbad).
    unfold validated.
    destruct set_ as [| | | | |[|kv kvs]| | |]; try reflexivity.
    discriminate Hbad.
  - apply invalid_set_cases in Hbad as (kv & kvs & ->).
    unfold validated.
    destruct (assignments expect (kv :: kvs)) as [msg|ps] eqn:Hps.
    + erewrite bind_Raise; [reflexivity|].
      apply OnConflictDoUpdate__init__unresolved, Hps.
    + erewrite bind_Ok; [reflexivity|].
      apply OnConflictDoUpdate__init__resolved, Hps.
Qed.

Lemma on_conflict_do_update_run (s : store) b o ie iw set_ w :
  s !! b = Some o ->
  on_conflict_do_update expect b ie iw set_ w s
  = match validated expect set_ with
    | inl e => (Raise e, s ++ [o; abandoned_action ie iw])
    | inr ps =>
        (Ok (length s),
         s ++ [clone_with_clause o (S (length s));
               do_update_action ie iw w ps])
    end.
Proof.
  intros Hb. unfold on_conflict_do_update, _generative.
  erewrite bind_Ok by (apply _generate_run, Hb).
  destruct (validated expect set_) as [e|ps] eqn:Hv.
  - erewrite bind_Raise; [reflexivity|].
    erewrite bind_Raise; [reflexivity|].
    rewrite OnConflictDoUpdate_run, Hv, <- app_assoc. reflexivity.
  - erewrite bind_Ok; [reflexivity|].
    erewrite bind_Ok by (rewrite OnConflictDoUpdate_run, Hv; reflexivity).
    rewrite <- app_assoc. cbn [app].
    rewrite setattr_middle, length_app, Nat.add_1_r. reflexivity.
Qed.

Lemma on_conflict_do_update_dangling (s : store) b ie iw set_ w :
  s !! b = None -> on_conflict_do_update expect b ie iw set_ w s = (Fault, s).
Proof.
  intros Hb. unfold on_conflict_do_update, _generative, _generate, bind.
  rewrite Hb. reflexivity.
Qed.

End Calls.

Lemma invoke_run expect (s : store) b o c :
  s !! b = Some o ->
  invoke expect b c s
  = match built expect c with
    | inr act =>
        (Ok (length s), s ++ [clone_with_clause o (S (length s)); act])
    | inl e =>
        (Raise e,
         s ++ [o; abandoned_action (index_elements_of c) (index_where_of c)])
    end.
Proof.
  intros Hb. destruct c as [ie iw|ie iw set_ w]; cbn.
  - apply on_conflict_do_nothing_run, Hb.
  - rewrite (on_conflict_do_update_run _ _ _ _ _ _ _ _ Hb).
    destruct (validated expect set_); reflexivity.
Qed.

(** *** Reading a store that grew by two objects *)

Lemma lookup_grown_old (s : store) x y l :
  l < length s -> (s ++ [x; y]) !! l = s !! l.
Proof. apply lookup_app_l. Qed.

Lemma lookup_grown_first (s : store) x y :
  (s ++ [x; y]) !! length s = Some x.
Proof. apply list_lookup_middle. reflexivity. Qed.

Lemma lookup_grown_second (s : store) x y :
  (s ++ [x; y]) !! S (length s) = Some y.
Proof.
  rewrite (lookup_app_r s) by lia.
  replace (S (length s) - length s) with 1 by lia. reflexivity.
Qed.

Lemma lookup_grown_inv (s : store) x y l ob :
  (s ++ [x; y]) !! l = Some ob ->
  (l < length s /\ s !! l = Some ob)
  \/ (l = length s /\ ob = x)
  \/ (l = S (length s) /\ ob = y).
Proof.
  intros H. destruct (decide (l < length s)) as [Hlt|Hge].
  - left. rewrite lookup_app_l in H by exact Hlt. auto.
  - right. rewrite lookup_app_r in H by lia.
    destruct (l - length s) as [|[|n]] eqn:Hd; cbn in H.
    + left. split; [lia|congruence].
    + right. split; [lia|congruence].
    + discriminate.
Qed.

Lemma lookup_fresh (s : store) : s !! length s = None.
Proof. apply lookup_ge_None. lia. Qed.

Lemma lookup_fresh_S (s : store) : s !! S (length s) = None.
Proof. apply lookup_ge_None. lia. Qed.

Lemma post_values_clause_clone o a :
  _post_values_clause (clone_with_clause o a) = VRef a.
Proof.
  unfold _post_values_clause, clone_with_clause. cbn.
  rewrite lookup_insert_eq. reflexivity.
Qed.

Lemma built_visit_name expect c act :
  built expect c = inr act -> __visit_name__ (cls act) = Some (dispatch_key c).
Proof.
  destruct c as [ie iw|ie iw set_ w]; cbn.
  - intros [= <-]. reflexivity.
  - destruct (validated expect set_); intros [= <-]. reflexivity.
Qed.

(** In a renderable store the clause of a builder refers to an object
    of that store. *)
Lemma renderable_clause_live (s : store) l ob a :
  renderable s = true ->
  s !! l = Some ob -> cls ob = Insert -> _post_values_clause ob = VRef a ->
  a < length s.
Proof.
  unfold renderable. rewrite forallb_forall.
  intros Hall Hl Hcls Hpvc.
  assert (Hin : In ob s).
  { apply list_elem_of_In, list_elem_of_lookup. eauto. }
  specialize (Hall ob Hin). unfold presentable in Hall.
  rewrite Hcls, Hpvc in Hall.
  destruct (s !! a) eqn:Ha; [|discriminate].
  eapply lookup_lt_Some, Ha.
Qed.

(** *** Facts about the constructed actions *)

Lemma with_target_supplied ie iw d :
  ie <> VNone ->
  with_target ie iw d !! "constraint_target" = Some VNone
  /\ with_target ie iw d !! "inferred_target_elements" = Some ie
  /\ with_target ie iw d !! "inferred_target_whereclause" = Some iw.
Proof.
  intros Hie. unfold with_target.
  destruct ie; try congruence; cbn [is_None negb];
    repeat split; simplify_map_eq; reflexivity.
Qed.

Lemma with_target_omitted iw d :
  with_target VNone iw d !! "constraint_target" = Some VNone
  /\ with_target VNone iw d !! "inferred_target_elements" = Some VNone
  /\ with_target VNone iw d !! "inferred_target_whereclause" = Some VNone.
Proof.
  unfold with_target. cbn [is_None negb].
  repeat split; simplify_map_eq; reflexivity.
Qed.

Lemma with_target_dom ie iw :
  dom (with_target ie iw ∅)
  = ({["constraint_target"; "inferred_target_elements";
       "inferred_target_whereclause"]} : gset string).
Proof.
  unfold with_target.
  destruct (negb (is_None ie));
    rewrite !dom_insert_L, dom_empty_L; set_solver.
Qed.

Lemma built_target expect c act :
  built expect c = inr act ->
  forall name,
    name = "constraint_target" \/ name = "inferred_target_elements"
    \/ name = "inferred_target_whereclause" ->
    dict act !! name
    = with_target (index_elements_of c) (index_where_of c) ∅ !! name.
Proof.
  destruct c as [ie iw|ie iw set_ w]; cbn.
  - intros [= <-] name _. reflexivity.
  - destruct (validated expect set_); intros [= <-] name Hname. cbn.
    destruct Hname as [-> | [-> | ->] ]; simplify_map_eq; reflexivity.
Qed.

Lemma assignments_resolved expect kvs ps :
  assignments expect kvs = inr ps
  <-> Forall2 (fun kv p => exists col,
                 expect DMLColumnRole (fst kv) = inr col
                 /\ p = VTuple [col; snd kv]) kvs ps.
Proof.
  revert ps. induction kvs as [|kv kvs IH]; intros ps; cbn.
  - split.
    + intros [= <-]. constructor.
    + intros H. inversion H. reflexivity.
  - destruct (expect DMLColumnRole (fst kv)) as [msg|col] eqn:Hkv.
    + split; [discriminate|].
      intros H. inversion H as [|? ? ? ? (col & Hcol & _)]; congruence.
    + destruct (assignments expect kvs) as [msg|ps'] eqn:Hrest.
      * split; [discriminate|].
        intros H. inversion H as [|? p ? ps' _ Hps]; subst.
        apply IH in Hps. discriminate Hps.
      * split.
        -- intros [= <-]. constructor; [eauto|]. apply IH. reflexivity.
        -- intros H. inversion H as [|? p ? ps'' (col' & Hcol' & ->) Hps]; subst.
           apply IH in Hps. congruence.
Qed.

Lemma assignments_unresolved expect kvs msg :
  assignments expect kvs = inl msg
  <-> exists pre kv post,
        kvs = pre ++ kv :: post
        /\ Forall (fun kv' => exists col,
                     expect DMLColumnRole (fst kv') = inr col) pre
        /\ expect DMLColumnRole (fst kv) = inl msg.
Proof.
  revert msg. induction kvs as [|kv kvs IH]; intros msg; cbn.
  - split; [discriminate|].
    intros (pre & kv & post & H & _). destruct pre; discriminate H.
  - destruct (expect DMLColumnRole (fst kv)) as [m|col] eqn:Hkv.
    + split.
      * intros [= <-]. exists [], kv, kvs. auto.
      * intros (pre & kv' & post & Heq & Hpre & Hfail).
        destruct pre as [|p pre]; cbn in Heq; injection Heq as <- ->.
        -- congruence.
        -- inversion Hpre as [|? ? (c & Hc) _]; congruence.
    + destruct (assignments expect kvs) as [m|ps] eqn:Hrest.
      * split.
        -- intros [= <-].
           destruct (proj1 (IH m) eq_refl) as (pre & kv' & post & -> & Hpre & Hf).
           exists (kv :: pre), kv', post. repeat split; eauto.
        -- intros (pre & kv' & post & Heq & Hpre & Hfail).
           destruct pre as [|p pre]; cbn in Heq; injection Heq as <- ->.
           ++ congruence.
           ++ inversion Hpre; subst.
              apply IH. eauto 10.
      * split; [discriminate|].
        intros (pre & kv' & post & Heq & Hpre & Hfail).
        destruct pre as [|p pre]; cbn in Heq; injection Heq as <- ->.
        -- congruence.
        -- inversion Hpre; subst.
           assert (inr ps = (inl msg : string + list value)) as [=].
           apply IH. eauto 10.
Qed.

(** *** Renderable stores *)

Lemma presentable_grow (s ext : store) ob :
  presentable s ob = true -> presentable (s ++ ext) ob = true.
Proof.
  unfold presentable.
  destruct (cls ob); try reflexivity.
  destruct (_post_values_clause ob) as [| | | | | | |a|]; try discriminate.
  - reflexivity.
  - destruct (s !! a) as [act|] eqn:Ha; [|discriminate].
    rewrite (lookup_app_l_Some _ _ _ _ Ha). trivial.
Qed.

Lemma renderable_lookup (s : store) l ob :
  renderable s = true -> s !! l = Some ob -> presentable s ob = true.
Proof.
  unfold renderable. rewrite forallb_forall. intros Hall Hl.
  apply Hall, list_elem_of_In, list_elem_of_lookup. eauto.
Qed.

Lemma has_target_with_target c ie iw d :
  has_target (Object c (with_target ie iw d)) = true.
Proof.
  unfold has_target, has_attr, with_target. cbn [dict].
  destruct (negb (is_None ie)); simplify_map_eq; reflexivity.
Qed.

Lemma validated_nonempty expect set_ ps :
  validated expect set_ = inr ps -> exists p ps', ps = p :: ps'.
Proof.
  unfold validated.
  destruct set_ as [| | | | |[|kv kvs]| | |]; try discriminate.
  cbn. destruct (expect DMLColumnRole (fst kv)); [discriminate|].
  destruct (assignments expect kvs); [discriminate|].
  intros [= <-]. eauto.
Qed.

Lemma fully_formed_built expect c act :
  built expect c = inr act -> fully_formed act = true.
Proof.
  destruct c as [ie iw|ie iw set_ w]; cbn.
  - intros [= <-]. apply has_target_with_target.
  - destruct (validated expect set_) as [e|ps] eqn:Hv; intros [= <-].
    apply validated_nonempty in Hv as (p & ps' & ->).
    unfold fully_formed, do_update_action, has_target, has_attr, with_target.
    cbn [cls dict].
    destruct (negb (is_None ie)); simplify_map_eq; reflexivity.
Qed.

(** No call, whether it returns or raises, makes a renderable store
    unrenderable. *)
Lemma renderable_invoke expect (s : store) b o c r (s' : store) :
  s !! b = Some o ->
  renderable s = true ->
  invoke expect b c s = (r, s') ->
  renderable s' = true.
Proof.
  intros Hb Hwf Hrun. rewrite (invoke_run _ _ _ _ _ Hb) in Hrun.
  assert (Hold : forall ext, forallb (presentable (s ++ ext)) s = true).
  { intros ext. apply forallb_forall. intros ob Hin.
    apply presentable_grow.
    unfold renderable in Hwf. rewrite forallb_forall in Hwf. auto. }
  destruct (built expect c) as [e|act] eqn:Hbuilt;
    injection Hrun as <- <-; unfold renderable;
    rewrite forallb_app, Hold; cbn [forallb andb].
  - rewrite presentable_grow by (eapply renderable_lookup; eauto).
    reflexivity.
  - rewrite !andb_true_r. apply andb_true_intro. split.
    + unfold presentable. cbn [clone_with_clause cls].
      destruct (cls o); try reflexivity.
      rewrite post_values_clause_clone, lookup_grown_second.
      eapply fully_formed_built, Hbuilt.
    + apply built_visit_name in Hbuilt. unfold presentable.
      destruct (cls act); try reflexivity; discriminate Hbuilt.
Qed.

Lemma builders_survive_failure (s : store) o b x :
  s !! b = Some o -> cls x <> Insert ->
  forall l ob, (s ++ [o; x]) !! l = Some ob -> cls ob = Insert ->
               exists l0, s !! l0 = Some ob.
Proof.
  intros Hb Hx l ob Hl Hcls.
  apply lookup_grown_inv in Hl as [[_ Hl]|[[_ ->]|[_ ->]]]; eauto.
  contradiction.
Qed.

Lemma assignments_total expect kvs :
  Forall (fun kv => exists col, expect DMLColumnRole (fst kv) = inr col) kvs
  <-> exists ps, assignments expect kvs = inr ps.
Proof.
  induction kvs as [|kv kvs IH]; cbn.
  - split; [eauto|constructor].
  - split.
    + intros H. inversion H as [|? ? (col & Hcol) Hrest]; subst.
      rewrite Hcol. apply IH in Hrest as (ps & ->). eauto.
    + intros (ps & H).
      destruct (expect DMLColumnRole (fst kv)) as [|col] eqn:Hkv;
        [discriminate|].
      destruct (assignments expect kvs) as [|ps'] eqn:Hrest; [discriminate|].
      constructor; [eauto|]. apply IH. eauto.
Qed.

(** *** Successful calls *)

Lemma invoke_Ok_inv expect (s : store) b o c b' (s' : store) :
  s !! b = Some o ->
  invoke expect b c s = (Ok b', s') ->
  exists act,
    built expect c = inr act
    /\ b' = length s
    /\ s' = s ++ [clone_with_clause o (S (length s)); act].
Proof.
  intros Hb Hrun. rewrite (invoke_run _ _ _ _ _ Hb) in Hrun.
  destruct (built expect c) as [e|act]; [discriminate|].
  injection Hrun as <- <-. eauto.
Qed.

Lemma attached_grown (s : store) o act :
  attached (s ++ [clone_with_clause o (S (length s)); act]) (length s) act.
Proof.
  exists (clone_with_clause o (S (length s))), (S (length s)).
  split; [apply lookup_grown_first|].
  split; [apply post_values_clause_clone|apply lookup_grown_second].
Qed.

Lemma attached_functional (s : store) b act act' :
  attached s b act -> attached s b act' -> act = act'.
Proof.
  intros (ob & a & Hb & Ha & Hact) (ob' & a' & Hb' & Ha' & Hact').
  congruence.
Qed.

Lemma clone_with_clause_twice o a1 a2 :
  clone_with_clause (clone_with_clause o a1) a2 = clone_with_clause o a2.
Proof.
  unfold clone_with_clause. cbn [cls dict].
  rewrite insert_insert_eq. reflexivity.
Qed.

(** *** The memoized namespace *)

Lemma setattr_Ok_lookup (s : store) b name v u (s' : store) :
  setattr b name v s = (Ok u, s') ->
  exists ob, s' !! b = Some ob /\ dict ob !! name = Some v.
Proof.
  unfold setattr. destruct (s !! b) as [o|] eqn:Hb; [|discriminate].
  intros [= _ <-]. eexists. split.
  - apply list_lookup_insert_eq. eapply lookup_lt_Some, Hb.
  - cbn. apply lookup_insert_eq.
Qed.

(** Once a memoized property has returned, reading it again returns the
    same value and leaves the store alone, whatever the getter is. *)
Lemma memoized_property_stable name fget b (s : store) v (s1 : store) :
  memoized_property name fget b s = (Ok v, s1) ->
  memoized_property name fget b s1 = (Ok v, s1)
  /\ exists ob, s1 !! b = Some ob /\ dict ob !! name = Some v.
Proof.
  unfold memoized_property at 1.
  destruct (s !! b) as [o|] eqn:Hb; [|discriminate].
  destruct (dict o !! name) as [cached|] eqn:Hc.
  - intros [= <- <-]. unfold memoized_property. rewrite Hb, Hc. eauto.
  - unfold bind. destruct (fget b s) as [[v'| |] s_mid]; try discriminate.
    destruct (setattr b name v' s_mid) as [[u| |] s_end] eqn:Hset;
      try discriminate.
    intros [= <- <-].
    apply setattr_Ok_lookup in Hset as (ob & Hob & Hv).
    unfold memoized_property. rewrite Hob, Hv. eauto.
Qed.

Lemma excluded_fget_run (s : store) b o table :
  s !! b = Some o ->
  dict o !! "table" = Some table ->
  excluded_fget b s
  = (Ok (VRef (S (length s))),
     s ++ [Object Alias
             (<["name" := VStr "excluded"]> (<["element" := table]> ∅));
           Object ColumnCollection (<["selectable" := VRef (length s)]> ∅)]).
Proof.
  intros Hb Ht. unfold excluded_fget.
  erewrite bind_Ok by (unfold getattr; rewrite Hb, Ht; reflexivity).
  erewrite bind_Ok.
  2:{ unfold alias. erewrite bind_Ok by reflexivity.
      erewrite bind_Ok by apply setattr_middle.
      erewrite bind_Ok by apply setattr_middle.
      reflexivity. }
  unfold columns. erewrite bind_Ok by reflexivity.
  erewrite bind_Ok by apply setattr_middle.
  unfold ret. rewrite length_app, Nat.add_1_r, <- app_assoc. reflexivity.
Qed.

(** Without the cache the namespace would be rebuilt on every read: the
    getter hands out a new alias each time it runs. *)
Lemma excluded_fget_rebuilds (s : store) b o v1 (s1 : store) v2 (s2 : store) :
  s !! b = Some o ->
  excluded_fget b s = (Ok v1, s1) ->
  excluded_fget b s1 = (Ok v2, s2) ->
  v1 <> v2.
Proof.
  intros Hb H1 H2.
  destruct (dict o !! "table") as [table|] eqn:Ht.
  - rewrite (excluded_fget_run _ _ _ _ Hb Ht) in H1.
    injection H1 as <- <-.
    erewrite excluded_fget_run in H2;
      [|apply lookup_app_l_Some, Hb|exact Ht].
    injection H2 as <- _. rewrite length_app. cbn. intros [=]. lia.
  - unfold excluded_fget, bind, getattr in H1. rewrite Hb, Ht in H1.
    discriminate H1.
Qed.

(** *** Renderability is an invariant of every reachable store *)

Lemma renderable_intro (s : store) :
  (forall l ob, s !! l = Some ob -> presentable s ob = true) ->
  renderable s = true.
Proof.
  intros H. apply forallb_forall. intros ob Hin.
  apply list_elem_of_In, list_elem_of_lookup in Hin as [l Hl]. eauto.
Qed.

Lemma insert_run table (s : store) :
  insert table s
  = (Ok (length s), s ++ [Object Insert (<["table" := table]> ∅)]).
Proof.
  unfold insert. erewrite bind_Ok by reflexivity.
  erewrite bind_Ok by apply setattr_middle. reflexivity.
Qed.

Lemma renderable_insert table (s : store) r (s' : store) :
  renderable s = true -> insert table s = (r, s') -> renderable s' = true.
Proof.
  intros Hwf. rewrite insert_run. intros [= _ <-].
  unfold renderable. rewrite forallb_app. apply andb_true_intro. split.
  - apply forallb_forall. intros ob Hin. apply presentable_grow.
    unfold renderable in Hwf. rewrite forallb_forall in Hwf. auto.
  - reflexivity.
Qed.

(** A read of [excluded] either leaves the store alone or caches the
    namespace in the builder and appends the alias and its columns. *)
Lemma excluded_cases (s : store) b o r (s' : store) :
  s !! b = Some o ->
  excluded b s = (r, s') ->
  s' = s
  \/ exists v x y,
       s' = <[b := Object (cls o) (<["excluded" := v]> (dict o))]> s ++ [x; y]
       /\ dict o !! "excluded" = None
       /\ cls x = Alias /\ cls y = ColumnCollection.
Proof.
  intros Hb. unfold excluded, memoized_property. rewrite Hb.
  destruct (dict o !! "excluded") as [cached|] eqn:Hc.
  - intros [= _ <-]. auto.
  - destruct (dict o !! "table") as [table|] eqn:Ht.
    + erewrite bind_Ok by (eapply excluded_fget_run; eauto).
      unfold bind, setattr. rewrite (lookup_app_l_Some _ _ _ _ Hb).
      intros [= _ <-]. right. eexists _, _, _. split.
      { apply insert_app_l. eapply lookup_lt_Some, Hb. }
      split; [reflexivity|split; reflexivity].
    + unfold bind, excluded_fget, bind, getattr. rewrite Hb, Ht.
      intros [= _ <-]. auto.
Qed.

Lemma fully_formed_not_builder act :
  fully_formed act = true -> cls act <> Insert.
Proof. unfold fully_formed. intros H Hcls. rewrite Hcls in H. discriminate. Qed.

Lemma renderable_excluded (s : store) b r (s' : store) :
  is_builder s b ->
  renderable s = true -> excluded b s = (r, s') -> renderable s' = true.
Proof.
  intros (o & Hb & Hcls) Hwf Hrun.
  destruct (excluded_cases _ _ _ _ _ Hb Hrun)
    as [->|(v & x & y & -> & Hc & Hx & Hy)]; [exact Hwf|].
  pose proof (lookup_lt_Some _ _ _ Hb) as Hlt.
  set (o' := Object (cls o) (<["excluded" := v]> (dict o))).
  assert (Hpvc : _post_values_clause o' = _post_values_clause o).
  { unfold _post_values_clause, o'. cbn [dict].
    rewrite lookup_insert_ne by discriminate. reflexivity. }
  assert (Hkeep : forall ob, presentable s ob = true ->
                             presentable (<[b := o']> s ++ [x; y]) ob = true).
  { intros ob. unfold presentable.
    destruct (cls ob); try reflexivity.
    destruct (_post_values_clause ob) as [| | | | | | |a|]; try discriminate;
      [reflexivity|].
    destruct (s !! a) as [act|] eqn:Ha; [|discriminate].
    intros Hff.
    assert (a <> b).
    { intros ->. apply fully_formed_not_builder in Hff. congruence. }
    rewrite lookup_app_l
      by (rewrite length_insert; eapply lookup_lt_Some, Ha).
    rewrite list_lookup_insert_ne by congruence. rewrite Ha. exact Hff. }
  apply renderable_intro. intros l ob Hl.
  apply lookup_grown_inv in Hl as [[Hold Hl]|[[_ ->]|[_ ->]]].
  - destruct (decide (l = b)) as [->|Hne].
    + rewrite list_lookup_insert_eq in Hl by exact Hlt.
      injection Hl as <-.
      pose proof (Hkeep o (renderable_lookup _ _ _ Hwf Hb)) as Ho.
      unfold presentable in *. cbn [o' cls] in *.
      rewrite Hpvc. exact Ho.
    + rewrite list_lookup_insert_ne in Hl by congruence.
      apply Hkeep. eapply renderable_lookup; eauto.
  - unfold presentable. rewrite Hx. reflexivity.
  - unfold presentable. rewrite Hy. reflexivity.
Qed.

(** X4. Whatever sequence of factory calls, conflict calls and
    [excluded] reads a program makes, failed ones included, every builder
    it holds carries no action or a fully formed one. *)
Lemma reachable_renderable expect (s : store) :
  reachable expect s -> renderable s = true.
Proof.
  unfold reachable. intros Hreach.
  apply rtc_nsteps in Hreach as [n Hn].
  revert s Hn. induction n as [|n IH]; intros s Hn.
  - inversion Hn; subst. reflexivity.
  - apply nsteps_inv_r in Hn as (s0 & Hs0 & Hstep).
    specialize (IH _ Hs0).
    destruct Hstep as [table s0 r s' Hrun|b c s0 r s' (o & Hb & _) Hrun
                      |b s0 r s' Hbuilder Hrun].
    + eapply renderable_insert; eauto.
    + eapply renderable_invoke; eauto.
    + eapply renderable_excluded; eauto.
Qed.

(** ** Examples *)

Example insert_users : insert users [] = (Ok 0, base_store).
Proof. reflexivity. Qed.

Example base_store_renderable : renderable base_store = true.
Proof. reflexivity. Qed.

(** [insert(users).on_conflict_do_update(index_elements=["id"],
    set_={"count": <expr 2>})], run from an empty store: the factory's
    builder is left as it was, and the returned builder refers to a
    Do-Update action with target elements [["id"]] and one assignment. *)
Example end_to_end :
  (let* b := insert users in
   on_conflict_do_update expect_columns b (VList [VStr "id"]) VNone
     (VDict [(VStr "count", VExpr 2)]) VNone) []
  = (Ok 1,
     [stmt;
      clone_with_clause stmt 2;
      do_update_action (VList [VStr "id"]) VNone VNone
        [VTuple [VStr "count"; VExpr 2]]]).
Proof. reflexivity. Qed.

(** ** Properties *)

(** C1. Frame property of the generative calls: whatever
    [on_conflict_do_nothing] or [on_conflict_do_update] is given and
    however it ends, the receiver [b] is the same object afterwards (same
    post-values clause, same other fields), as is every other object that
    existed before.  When the call returns, it returns a new builder, a
    copy of [b] whose post-values clause alone is replaced by a reference
    to the action just constructed; no builder that existed before refers
    to that action. *)
Theorem conflict_call_leaves_receiver_unchanged
    expect (s : store) b o c r (s' : store) :
  s !! b = Some o ->
  invoke expect b c s = (r, s') ->
  s' !! b = Some o
  /\ (forall l, l < length s -> s' !! l = s !! l)
  /\ (forall b', r = Ok b' ->
      exists a act,
        b' <> b /\ s !! b' = None
        /\ s' !! b' = Some (clone_with_clause o a)
        /\ s !! a = None /\ s' !! a = Some act
        /\ __visit_name__ (cls act) = Some (dispatch_key c)
        /\ (renderable s = true ->
            forall l ob, s' !! l = Some ob -> cls ob = Insert ->
                         _post_values_clause ob = VRef a -> l = b')).
Proof.
  intros Hb Hrun. rewrite (invoke_run _ _ _ _ _ Hb) in Hrun.
  pose proof (lookup_lt_Some _ _ _ Hb) as Hlt.
  destruct (built expect c) as [e|act] eqn:Hbuilt;
    injection Hrun as <- <-.
  - split; [rewrite lookup_grown_old by exact Hlt; exact Hb|].
    split; [intros l Hl; apply lookup_grown_old, Hl|].
    intros b' [=].
  - split; [rewrite lookup_grown_old by exact Hlt; exact Hb|].
    split; [intros l Hl; apply lookup_grown_old, Hl|].
    intros b' [= <-]. exists (S (length s)), act.
    split; [lia|].
    split; [apply lookup_fresh|].
    split; [apply lookup_grown_first|].
    split; [apply lookup_fresh_S|].
    split; [apply lookup_grown_second|].
    split; [eapply built_visit_name, Hbuilt|].
    intros Hwf l ob Hl Hcls Hpvc.
    apply lookup_grown_inv in Hl as [[Hold Hl]|[[-> _]|[-> ->]]].
    + pose proof (renderable_clause_live _ _ _ _ Hwf Hl Hcls Hpvc). lia.
    + reflexivity.
    + apply built_visit_name in Hbuilt. rewrite Hcls in Hbuilt.
      discriminate Hbuilt.
Qed.

Lemma conflict_call_leaves_receiver_unchanged_witness :
  snd (on_conflict_do_update expect_columns 0 (VList [VStr "id"]) VNone
         (VDict [(VStr "count", VInt 1)]) VNone base_store) !! 0
  = Some stmt.
Proof.
  exact (proj1
           (conflict_call_leaves_receiver_unchanged
              expect_columns base_store 0 stmt
              (DoUpdate (VList [VStr "id"]) VNone
                 (VDict [(VStr "count", VInt 1)]) VNone)
              _ _ eq_refl (surjective_pairing _))).
Defined.

(** C2, as amended.  For a [set_] that is a [dict] or is no mapping at
    all, [on_conflict_do_update] raises the Invalid-Assignment-Set error
    exactly when [set_] is not a mapping or is empty, and then no builder
    gains an action: the receiver is unchanged and every builder of the
    final store is a builder of the initial one.  A non-empty [dict]
    never raises that error: the call returns a builder exactly when the
    Coercion Service resolves every key, and otherwise it raises the
    service's failure on the first key that does not resolve. *)
Theorem on_conflict_do_update_validates_set
    expect (s : store) b o ie iw set_ w r (s' : store) :
  s !! b = Some o ->
  is_mapping set_ = isinstance_dict set_ ->
  on_conflict_do_update expect b ie iw set_ w s = (r, s') ->
  (r = Raise (ValueError "set parameter must be a non-empty dictionary")
   <-> is_mapping set_ = false \/ set_ = VDict [])
  /\ (r = Raise (ValueError "set parameter must be a non-empty dictionary") ->
      s' !! b = Some o
      /\ forall l ob, s' !! l = Some ob -> cls ob = Insert ->
                      exists l0, s !! l0 = Some ob)
  /\ (forall kvs, set_ = VDict kvs -> kvs <> [] ->
      ((exists b', r = Ok b')
       <-> Forall (fun kv => exists col,
                     expect DMLColumnRole (fst kv) = inr col) kvs)
      /\ ((exists b', r = Ok b')
          \/ exists pre kv post msg,
               kvs = pre ++ kv :: post
               /\ Forall (fun kv' => exists col,
                            expect DMLColumnRole (fst kv') = inr col) pre
               /\ expect DMLColumnRole (fst kv) = inl msg
               /\ r = Raise (ArgumentError msg))).
Proof.
  intros Hb Hmap Hrun.
  rewrite (on_conflict_do_update_run _ _ _ _ _ _ _ _ Hb) in Hrun.
  pose proof (lookup_lt_Some _ _ _ Hb) as Hlt.
  split; [|split].
  - unfold validated in Hrun.
    destruct set_ as [| | | | |[|kv kvs]| | |]; cbn in Hmap |- *;
      try discriminate Hmap;
      try (injection Hrun as <- <-; split; [auto|reflexivity]).
    destruct (assignments expect (kv :: kvs));
      injection Hrun as <- <-;
      (split; [discriminate|intros [|]; discriminate]).
  - intros ->.
    destruct (validated expect set_) as [e|ps]; [|discriminate].
    injection Hrun as _ <-. split.
    + rewrite lookup_grown_old by exact Hlt. exact Hb.
    + eapply builders_survive_failure; [exact Hb|discriminate].
  - intros kvs -> Hne. destruct kvs as [|kv kvs]; [congruence|].
    unfold validated in Hrun. rewrite assignments_total.
    destruct (assignments expect (kv :: kvs)) as [msg|ps] eqn:Ha;
      injection Hrun as <- <-.
    + split.
      * split; [intros (b' & [=])|intros (ps & [=])].
      * right. apply assignments_unresolved in Ha
          as (pre & kv' & post & Heq & Hpre & Hfail).
        exists pre, kv', post, msg. auto.
    + split; [split; eauto|eauto].
Qed.

Lemma on_conflict_do_update_validates_set_witness :
  fst (on_conflict_do_update expect_columns 0 VNone VNone (VDict []) VNone
         base_store)
  = Raise (ValueError "set parameter must be a non-empty dictionary").
Proof.
  apply (proj1
           (on_conflict_do_update_validates_set
              expect_columns base_store 0 stmt VNone VNone (VDict []) VNone
              _ _ eq_refl eq_refl (surjective_pairing _))).
  right. reflexivity.
Defined.

(** A non-empty mapping whose key the Coercion Service cannot resolve
    passes the validation of [set_] and still does not succeed. *)
Lemma nonempty_set_with_unresolved_key_fails :
  let set_ := VDict [(VInt 5, VInt 1)] in
  isinstance_dict set_ = true /\ truthy set_ = true
  /\ fst (on_conflict_do_update expect_columns 0 VNone VNone set_ VNone
           base_store)
     = Raise (ArgumentError "SET key is not a column of the table")
  /\ ~ (exists b' s',
         on_conflict_do_update expect_columns 0 VNone VNone set_ VNone
           base_store = (Ok b', s')).
Proof.
  cbv zeta. split; [reflexivity|]. split; [reflexivity|].
  split; [reflexivity|].
  intros (b' & s' & H). apply (f_equal fst) in H. discriminate H.
Qed.

Example empty_set_fails :
  fst (on_conflict_do_update expect_columns 0 VNone VNone (VDict []) VNone
         base_store)
  = Raise (ValueError "set parameter must be a non-empty dictionary").
Proof. reflexivity. Qed.

Example none_set_fails :
  fst (on_conflict_do_update expect_columns 0 VNone VNone VNone VNone
         base_store)
  = Raise (ValueError "set parameter must be a non-empty dictionary").
Proof. reflexivity. Qed.

Example singleton_set_succeeds :
  fst (on_conflict_do_update expect_columns 0 VNone VNone
         (VDict [(VStr "a", VInt 1)]) VNone base_store)
  = Ok 1.
Proof. reflexivity. Qed.

(** The docstring of [set_] admits "a dictionary or other mapping
    object", yet the test is [isinstance(set_, dict)]: the same items
    held by a mapping of another type are turned down. *)
Example other_mapping_is_turned_down :
  fst (on_conflict_do_update expect_columns 0 VNone VNone
         (VMapping [(VStr "a", VInt 1)]) VNone base_store)
  = Raise (ValueError "set parameter must be a non-empty dictionary").
Proof. reflexivity. Qed.

(** C3. The action attached by either call has its three target fields
    set from the arguments: with [index_elements] supplied (not [None]),
    [constraint_target] is [None], [inferred_target_elements] is the
    supplied value and [inferred_target_whereclause] is [index_where];
    with [index_elements] omitted all three are [None], whatever
    [index_where] is. *)
Theorem conflict_target_follows_index_elements
    expect (s : store) b o c b' (s' : store) :
  s !! b = Some o ->
  invoke expect b c s = (Ok b', s') ->
  exists act,
    attached s' b' act
    /\ (index_elements_of c <> VNone ->
        dict act !! "constraint_target" = Some VNone
        /\ dict act !! "inferred_target_elements"
           = Some (index_elements_of c)
        /\ dict act !! "inferred_target_whereclause"
           = Some (index_where_of c))
    /\ (index_elements_of c = VNone ->
        dict act !! "constraint_target" = Some VNone
        /\ dict act !! "inferred_target_elements" = Some VNone
        /\ dict act !! "inferred_target_whereclause" = Some VNone).
Proof.
  intros Hb Hrun.
  destruct (invoke_Ok_inv _ _ _ _ _ _ _ Hb Hrun) as (act & Hbuilt & -> & ->).
  exists act. split; [apply attached_grown|].
  pose proof (built_target _ _ _ Hbuilt) as Hfield.
  rewrite !Hfield by auto.
  split.
  - apply with_target_supplied.
  - intros ->. apply with_target_omitted.
Qed.

Lemma conflict_target_follows_index_elements_witness :
  exists act,
    attached
      (snd (on_conflict_do_update expect_columns 0 (VList [VStr "id"])
              (VExpr 7) (VDict [(VStr "count", VInt 1)]) VNone base_store))
      1 act
    /\ dict act !! "constraint_target" = Some VNone
    /\ dict act !! "inferred_target_elements" = Some (VList [VStr "id"])
    /\ dict act !! "inferred_target_whereclause" = Some (VExpr 7).
Proof.
  destruct (conflict_target_follows_index_elements
              expect_columns base_store 0 stmt
              (DoUpdate (VList [VStr "id"]) (VExpr 7)
                 (VDict [(VStr "count", VInt 1)]) VNone)
              1 _ eq_refl (surjective_pairing _))
    as (act & Hact & Hsupplied & _).
  exists act. split; [exact Hact|]. apply Hsupplied. discriminate.
Defined.

(** C4. For a non-empty mapping [set_], if the Coercion Service resolves
    every key then [on_conflict_do_update] returns, and whenever it
    returns, [update_values_to_set] of the attached action is the list of
    pairs (canonical column reference of the key, value as given), one
    per item of the mapping and in the mapping's insertion order. *)
Theorem update_values_follow_insertion_order
    expect (s : store) b o ie iw kvs w :
  s !! b = Some o ->
  kvs <> [] ->
  (forall cols,
      Forall2 (fun kv col => expect DMLColumnRole (fst kv) = inr col)
        kvs cols ->
      exists b' (s' : store) act,
        on_conflict_do_update expect b ie iw (VDict kvs) w s = (Ok b', s')
        /\ attached s' b' act
        /\ dict act !! "update_values_to_set"
           = Some (VList (zip_with (fun kv col => VTuple [col; snd kv])
                            kvs cols)))
  /\ (forall b' (s' : store),
        on_conflict_do_update expect b ie iw (VDict kvs) w s = (Ok b', s') ->
        exists cols act,
          Forall2 (fun kv col => expect DMLColumnRole (fst kv) = inr col)
            kvs cols
          /\ attached s' b' act
          /\ dict act !! "update_values_to_set"
             = Some (VList (zip_with (fun kv col => VTuple [col; snd kv])
                              kvs cols))).
Proof.
  intros Hb Hne.
  assert (Hzip : forall cols,
             Forall2 (fun kv col => expect DMLColumnRole (fst kv) = inr col)
               kvs cols ->
             assignments expect kvs
             = inr (zip_with (fun kv col => VTuple [col; snd kv]) kvs cols)).
  { clear Hne. intros cols H.
    induction H as [|kv col kvs' cols' Hkv _ IH]; cbn.
    - reflexivity.
    - rewrite Hkv, IH. reflexivity. }
  assert (Hcols : forall ps,
             assignments expect kvs = inr ps ->
             exists cols,
               Forall2 (fun kv col => expect DMLColumnRole (fst kv) = inr col)
                 kvs cols
               /\ ps = zip_with (fun kv col => VTuple [col; snd kv]) kvs cols).
  { clear Hne Hzip. induction kvs as [|kv kvs' IH]; cbn; intros ps.
    - intros [= <-]. exists []. split; [constructor|reflexivity].
    - destruct (expect DMLColumnRole (fst kv)) as [|col] eqn:Hkv;
        [discriminate|].
      destruct (assignments expect kvs') as [|ps'] eqn:Hrest; [discriminate|].
      intros [= <-]. destruct (IH ps' eq_refl) as (cols & Hall & ->).
      exists (col :: cols). split; [constructor; assumption|reflexivity]. }
  rewrite (on_conflict_do_update_run _ _ _ _ _ _ _ _ Hb).
  destruct kvs as [|kv kvs]; [congruence|]. unfold validated.
  split.
  - intros cols Hall. rewrite (Hzip cols Hall).
    eexists _, _, _. split; [reflexivity|].
    split; [apply attached_grown|].
    unfold do_update_action. cbn [dict]. simplify_map_eq. reflexivity.
  - intros b' s' Hrun.
    destruct (assignments expect (kv :: kvs)) as [|ps] eqn:Hps;
      [discriminate|].
    injection Hrun as <- <-.
    destruct (Hcols ps eq_refl) as (cols & Hall & ->).
    eexists cols, _. split; [exact Hall|].
    split; [apply attached_grown|].
    unfold do_update_action. cbn [dict]. simplify_map_eq. reflexivity.
Qed.

Lemma update_values_follow_insertion_order_witness :
  exists b' (s' : store) act,
    on_conflict_do_update expect_columns 0 VNone VNone
      (VDict [(VStr "b", VInt 2); (VStr "a", VInt 1)]) VNone base_store
    = (Ok b', s')
    /\ attached s' b' act
    /\ dict act !! "update_values_to_set"
       = Some (VList [VTuple [VStr "b"; VInt 2]; VTuple [VStr "a"; VInt 1]]).
Proof.
  apply (proj1
           (update_values_follow_insertion_order
              expect_columns base_store 0 stmt VNone VNone
              [(VStr "b", VInt 2); (VStr "a", VInt 1)] VNone
              eq_refl ltac:(discriminate))
           [VStr "b"; VStr "a"]).
  repeat constructor.
Defined.

(** C5. Chaining two conflict calls: the builder returned by the second
    call is the original builder with its post-values clause replaced by
    a reference to one action, which did not exist before the second
    call and is the very action the second call attaches to any builder
    in any store; nothing of the first call's action remains in it. *)
Theorem last_conflict_call_wins
    expect (s : store) b o c1 c2 b1 (s1 : store) b2 (s2 : store) :
  s !! b = Some o ->
  invoke expect b c1 s = (Ok b1, s1) ->
  invoke expect b1 c2 s1 = (Ok b2, s2) ->
  exists a2 act2,
    s2 !! b2 = Some (clone_with_clause o a2)
    /\ s1 !! a2 = None
    /\ s2 !! a2 = Some act2
    /\ attached s2 b2 act2
    /\ (forall act, attached s2 b2 act -> act = act2)
    /\ (forall (s0 : store) b0 o0 b0' (s0' : store),
          s0 !! b0 = Some o0 ->
          invoke expect b0 c2 s0 = (Ok b0', s0') ->
          attached s0' b0' act2).
Proof.
  intros Hb H1 H2.
  destruct (invoke_Ok_inv _ _ _ _ _ _ _ Hb H1) as (act1 & _ & -> & ->).
  pose proof (lookup_grown_first s
                (clone_with_clause o (S (length s))) act1) as Hb1.
  destruct (invoke_Ok_inv _ _ _ _ _ _ _ Hb1 H2) as (act2 & Hbuilt & -> & ->).
  rewrite clone_with_clause_twice.
  set (s1 := s ++ [clone_with_clause o (S (length s)); act1]).
  exists (S (length s1)), act2.
  split; [apply lookup_grown_first|].
  split; [apply lookup_fresh_S|].
  split; [apply lookup_grown_second|].
  split; [apply attached_grown|].
  split.
  - intros act Hact. eapply attached_functional; [exact Hact|].
    apply attached_grown.
  - intros s0 b0 o0 b0' s0' Hb0 Hrun0.
    destruct (invoke_Ok_inv _ _ _ _ _ _ _ Hb0 Hrun0)
      as (act0 & Hbuilt0 & -> & ->).
    assert (act0 = act2) as -> by congruence.
    apply attached_grown.
Qed.

Lemma last_conflict_call_wins_witness :
  exists a2 act2,
    snd (invoke expect_columns 1
           (DoUpdate VNone VNone (VDict [(VStr "count", VInt 1)]) VNone)
           (snd (invoke expect_columns 0 (DoNothing (VList [VStr "id"]) VNone)
                   base_store))) !! 3
    = Some (clone_with_clause stmt a2)
    /\ attached
         (snd (invoke expect_columns 1
                 (DoUpdate VNone VNone (VDict [(VStr "count", VInt 1)]) VNone)
                 (snd (invoke expect_columns 0
                         (DoNothing (VList [VStr "id"]) VNone) base_store))))
         3 act2.
Proof.
  destruct (last_conflict_call_wins
              expect_columns base_store 0 stmt
              (DoNothing (VList [VStr "id"]) VNone)
              (DoUpdate VNone VNone (VDict [(VStr "count", VInt 1)]) VNone)
              1 _ 3 _ eq_refl (surjective_pairing _) (surjective_pairing _))
    as (a2 & act2 & Hb2 & _ & _ & Hatt & _).
  exists a2, act2. split; [exact Hb2|exact Hatt].
Defined.

(** C6. A failing [on_conflict_do_update] raises either the
    Invalid-Assignment-Set error, for a [set_] that is not a non-empty
    mapping, or, unchanged, the failure of the Coercion Service on the
    first key it cannot resolve.  In both cases the receiver and every
    other object that existed before are unchanged, every builder of the
    final store is a builder of the initial one, and a store whose
    builders carried only fully formed actions still does: the Do-Update
    object abandoned by the constructor is attached to no builder.
    (Every store a program reaches is of that kind, by
    [reachable_renderable].) *)
Theorem on_conflict_do_update_failure_is_clean
    expect (s : store) b o ie iw set_ w e (s' : store) :
  s !! b = Some o ->
  on_conflict_do_update expect b ie iw set_ w s = (Raise e, s') ->
  ((e = ValueError "set parameter must be a non-empty dictionary"
    /\ (isinstance_dict set_ = false \/ set_ = VDict []))
   \/ (exists pre kv post msg,
         set_ = VDict (pre ++ kv :: post)
         /\ Forall (fun kv' => exists col,
                      expect DMLColumnRole (fst kv') = inr col) pre
         /\ expect DMLColumnRole (fst kv) = inl msg
         /\ e = ArgumentError msg))
  /\ s' !! b = Some o
  /\ (forall l, l < length s -> s' !! l = s !! l)
  /\ (forall l ob, s' !! l = Some ob -> cls ob = Insert ->
                   exists l0, s !! l0 = Some ob)
  /\ (renderable s = true -> renderable s' = true).
Proof.
  intros Hb Hrun.
  pose proof (lookup_lt_Some _ _ _ Hb) as Hlt.
  assert (Hinv : renderable s = true -> renderable s' = true).
  { intros Hwf.
    exact (renderable_invoke expect s b o (DoUpdate ie iw set_ w) _ _
             Hb Hwf Hrun). }
  rewrite (on_conflict_do_update_run _ _ _ _ _ _ _ _ Hb) in Hrun.
  destruct (validated expect set_) as [e'|ps] eqn:Hv; [|discriminate].
  injection Hrun as -> <-.
  split; [|split; [|split; [|split]]].
  - unfold validated in Hv.
    destruct set_ as [| | | | |[|kv kvs]| | |];
      try (injection Hv as <-; left; cbn; auto).
    destruct (assignments expect (kv :: kvs)) as [msg|] eqn:Ha;
      [|discriminate].
    injection Hv as <-. right.
    apply assignments_unresolved in Ha
      as (pre & kv' & post & -> & Hpre & Hfail).
    exists pre, kv', post, msg. auto.
  - rewrite lookup_grown_old by exact Hlt. exact Hb.
  - intros l Hl. apply lookup_grown_old, Hl.
  - eapply builders_survive_failure; [exact Hb|discriminate].
  - exact Hinv.
Qed.

Lemma on_conflict_do_update_failure_is_clean_witness :
  renderable
    (snd (on_conflict_do_update expect_columns 0 (VList [VStr "id"]) VNone
            (VDict [(VStr "name", VInt 1); (VInt 5, VInt 2)]) VNone
            base_store))
  = true.
Proof.
  apply (on_conflict_do_update_failure_is_clean
           expect_columns base_store 0 stmt (VList [VStr "id"]) VNone
           (VDict [(VStr "name", VInt 1); (VInt 5, VInt 2)]) VNone
           (ArgumentError "SET key is not a column of the table") _
           eq_refl (surjective_pairing _)).
  reflexivity.
Defined.

(** C7. [excluded] is memoized.  On a builder bound to a table the first
    read returns a namespace; and whenever a read has returned, the
    namespace sits in the builder's own [__dict__] and every later read
    returns that same reference without computing anything (the store
    stays as it is). *)
Theorem excluded_is_memoized (s : store) b o :
  s !! b = Some o ->
  (is_Some (dict o !! "table") ->
   exists v (s1 : store), excluded b s = (Ok v, s1))
  /\ (forall v (s1 : store),
        excluded b s = (Ok v, s1) ->
        excluded b s1 = (Ok v, s1)
        /\ exists ob, s1 !! b = Some ob /\ dict ob !! "excluded" = Some v).
Proof.
  intros Hb. split.
  - intros [table Ht]. unfold excluded, memoized_property. rewrite Hb.
    destruct (dict o !! "excluded") as [cached|]; [eauto|].
    erewrite bind_Ok by (eapply excluded_fget_run; eauto).
    unfold bind, setattr.
    rewrite (lookup_app_l_Some _ _ _ _ Hb). eauto.
  - intros v s1. apply memoized_property_stable.
Qed.

Lemma excluded_is_memoized_witness :
  excluded 0 (snd (excluded 0 base_store))
  = (Ok (VRef 2), snd (excluded 0 base_store)).
Proof.
  exact (proj1
           (proj2 (excluded_is_memoized base_store 0 stmt eq_refl)
              (VRef 2) _ (surjective_pairing (excluded 0 base_store)))).
Defined.

(** C8. [on_conflict_do_nothing] cannot fail: on a live builder, for
    every [index_elements] and [index_where], it returns a new builder
    whose post-values clause refers to a new [OnConflictDoNothing] object
    that has the three Conflict Target fields and nothing else. *)
Theorem on_conflict_do_nothing_always_succeeds (s : store) b o ie iw :
  s !! b = Some o ->
  exists b' (s' : store) a act,
    on_conflict_do_nothing b ie iw s = (Ok b', s')
    /\ s !! b' = None
    /\ s' !! b' = Some (clone_with_clause o a)
    /\ s !! a = None
    /\ s' !! a = Some act
    /\ cls act = OnConflictDoNothing
    /\ dom (dict act)
       = ({["constraint_target"; "inferred_target_elements";
            "inferred_target_whereclause"]} : gset string).
Proof.
  intros Hb.
  eexists (length s), _, (S (length s)), (do_nothing_action ie iw).
  split; [apply on_conflict_do_nothing_run, Hb|].
  split; [apply lookup_fresh|].
  split; [apply lookup_grown_first|].
  split; [apply lookup_fresh_S|].
  split; [apply lookup_grown_second|].
  split; [reflexivity|apply with_target_dom].
Qed.

Lemma on_conflict_do_nothing_always_succeeds_witness :
  exists b' (s' : store) a act,
    on_conflict_do_nothing 0 VNone (VInt 0) base_store = (Ok b', s')
    /\ base_store !! b' = None
    /\ s' !! b' = Some (clone_with_clause stmt a)
    /\ base_store !! a = None
    /\ s' !! a = Some act
    /\ cls act = OnConflictDoNothing
    /\ dom (dict act)
       = ({["constraint_target"; "inferred_target_elements";
            "inferred_target_whereclause"]} : gset string).
Proof.
  exact (on_conflict_do_nothing_always_succeeds
           base_store 0 stmt VNone (VInt 0) eq_refl).
Defined.

(** C9. The action attached by [on_conflict_do_nothing] declares the
    dispatch key ["on_conflict_do_nothing"], the one attached by
    [on_conflict_do_update] the key ["on_conflict_do_update"]; these two
    classes are the only ones that declare a key here, and besides the
    clone of the receiver a call allocates nothing but an object of the
    class that carries the key of that call. *)
Theorem conflict_actions_carry_dispatch_key expect (s : store) b o :
  s !! b = Some o ->
  (forall ie iw b' (s' : store),
      on_conflict_do_nothing b ie iw s = (Ok b', s') ->
      exists act,
        attached s' b' act
        /\ __visit_name__ (cls act) = Some "on_conflict_do_nothing")
  /\ (forall ie iw set_ w b' (s' : store),
        on_conflict_do_update expect b ie iw set_ w s = (Ok b', s') ->
        exists act,
          attached s' b' act
          /\ __visit_name__ (cls act) = Some "on_conflict_do_update")
  /\ (forall k key,
        __visit_name__ k = Some key ->
        (k = OnConflictDoNothing /\ key = "on_conflict_do_nothing")
        \/ (k = OnConflictDoUpdate /\ key = "on_conflict_do_update"))
  /\ (forall c r (s' : store) l ob,
        invoke expect b c s = (r, s') ->
        s' !! l = Some ob -> s !! l = None ->
        (l = length s /\ cls ob = cls o)
        \/ __visit_name__ (cls ob) = Some (dispatch_key c)).
Proof.
  intros Hb. split; [|split; [|split]].
  - intros ie iw b' s' Hrun.
    destruct (invoke_Ok_inv expect _ _ _ (DoNothing ie iw) _ _ Hb Hrun)
      as (act & Hbuilt & -> & ->).
    exists act. split; [apply attached_grown|].
    apply (built_visit_name _ _ _ Hbuilt).
  - intros ie iw set_ w b' s' Hrun.
    destruct (invoke_Ok_inv expect _ _ _ (DoUpdate ie iw set_ w) _ _ Hb Hrun)
      as (act & Hbuilt & -> & ->).
    exists act. split; [apply attached_grown|].
    apply (built_visit_name _ _ _ Hbuilt).
  - intros k key. destruct k; cbn; intros [=]; subst; auto.
  - intros c r s' l ob Hrun Hl Hnew.
    rewrite (invoke_run _ _ _ _ _ Hb) in Hrun.
    apply lookup_ge_None in Hnew.
    destruct (built expect c) as [e|act] eqn:Hbuilt;
      injection Hrun as <- <-;
      apply lookup_grown_inv in Hl as [[Hold _]|[[-> ->]|[-> ->]]];
      try lia; try (left; split; reflexivity); right.
    + destruct c as [ie iw|ie iw set_ w]; [discriminate Hbuilt|reflexivity].
    + apply (built_visit_name _ _ _ Hbuilt).
Qed.

Lemma conflict_actions_carry_dispatch_key_witness :
  exists act,
    attached
      (snd (on_conflict_do_update expect_columns 0 VNone VNone
              (VDict [(VStr "count", VInt 1)]) VNone base_store)) 1 act
    /\ __visit_name__ (cls act) = Some "on_conflict_do_update".
Proof.
  exact (proj1
           (proj2
              (conflict_actions_carry_dispatch_key
                 expect_columns base_store 0 stmt eq_refl))
           VNone VNone (VDict [(VStr "count", VInt 1)]) VNone 1 _
           (surjective_pairing _)).
Defined.

(** C10. An empty sequence is still a supplied [index_elements]: the
    test is [is not None], so either call given [index_elements=[]]
    builds an inferred target with [constraint_target] [None],
    [inferred_target_elements] the empty sequence and
    [inferred_target_whereclause] the supplied [index_where]. *)
Theorem empty_index_elements_selects_inferred_mode
    expect (s : store) b o c b' (s' : store) :
  s !! b = Some o ->
  index_elements_of c = VList [] ->
  invoke expect b c s = (Ok b', s') ->
  exists act,
    attached s' b' act
    /\ dict act !! "constraint_target" = Some VNone
    /\ dict act !! "inferred_target_elements" = Some (VList [])
    /\ dict act !! "inferred_target_whereclause" = Some (index_where_of c).
Proof.
  intros Hb Hie Hrun.
  destruct (invoke_Ok_inv _ _ _ _ _ _ _ Hb Hrun) as (act & Hbuilt & -> & ->).
  exists act. split; [apply attached_grown|].
  pose proof (built_target _ _ _ Hbuilt) as Hfield.
  rewrite !Hfield, Hie by auto.
  apply with_target_supplied. discriminate.
Qed.

Lemma empty_index_elements_selects_inferred_mode_witness :
  exists act,
    attached
      (snd (on_conflict_do_nothing 0 (VList []) (VExpr 7) base_store)) 1 act
    /\ dict act !! "constraint_target" = Some VNone
    /\ dict act !! "inferred_target_elements" = Some (VList [])
    /\ dict act !! "inferred_target_whereclause" = Some (VExpr 7).
Proof.
  exact (empty_index_elements_selects_inferred_mode
           expect_columns base_store 0 stmt (DoNothing (VList []) (VExpr 7))
           1 _ eq_refl eq_refl (surjective_pairing _)).
Defined.

(** ** Further properties *)

(** *** Helpers *)

Lemma assignments_agree expect1 expect2 kvs :
  (forall key, key ∈ map fst kvs ->
               expect1 DMLColumnRole key = expect2 DMLColumnRole key) ->
  assignments expect1 kvs = assignments expect2 kvs.
Proof.
  induction kvs as [|kv kvs IH]; cbn; intros Hagree.
  - reflexivity.
  - rewrite <- (Hagree (fst kv)) by (left).
    rewrite IH by (intros key Hkey; apply Hagree; right; exact Hkey).
    reflexivity.
Qed.

Lemma validated_agree expect1 expect2 set_ :
  (forall key, key ∈ set_keys set_ ->
               expect1 DMLColumnRole key = expect2 DMLColumnRole key) ->
  validated expect1 set_ = validated expect2 set_.
Proof.
  intros Hagree. unfold validated.
  destruct set_ as [| | | | |[|kv kvs]| | |]; try reflexivity.
  rewrite (assignments_agree expect1 expect2 (kv :: kvs)) by exact Hagree.
  reflexivity.
Qed.

(** Whether the pairs can be built, and the message if not, is decided
    by the keys alone. *)
Lemma assignments_fail_by_keys expect kvs1 kvs2 :
  map fst kvs1 = map fst kvs2 ->
  match assignments expect kvs1, assignments expect kvs2 with
  | inl m1, inl m2 => m1 = m2
  | inr _, inr _ => True
  | _, _ => False
  end.
Proof.
  revert kvs2. induction kvs1 as [|kv1 kvs1 IH]; intros [|kv2 kvs2];
    cbn; try discriminate; [trivial|].
  intros [= Hk Hks]. rewrite Hk.
  destruct (expect DMLColumnRole (fst kv2)); [reflexivity|].
  specialize (IH kvs2 Hks).
  destruct (assignments expect kvs1), (assignments expect kvs2);
    try contradiction; trivial.
Qed.

Lemma validated_fail_by_keys expect set1 set2 :
  set_keys set1 = set_keys set2 ->
  match validated expect set1, validated expect set2 with
  | inl e1, inl e2 => e1 = e2
  | inr _, inr _ => True
  | _, _ => False
  end.
Proof.
  intros Hkeys.
  assert (Hinvalid : forall set_, set_keys set_ = [] ->
            validated expect set_
            = inl (ValueError "set parameter must be a non-empty dictionary")).
  { intros set_. destruct set_ as [| | | | |[|kv kvs]| | |];
      try reflexivity. discriminate. }
  destruct set1 as [| | | | |[|kv1 kvs1]| | |];
    try (rewrite (Hinvalid set2) by (symmetry; exact Hkeys); reflexivity).
  destruct set2 as [| | | | |[|kv2 kvs2]| | |]; try discriminate Hkeys.
  unfold validated.
  pose proof (assignments_fail_by_keys expect (kv1 :: kvs1) (kv2 :: kvs2) Hkeys)
    as H.
  destruct (assignments expect (kv1 :: kvs1)),
           (assignments expect (kv2 :: kvs2));
    try contradiction; congruence.
Qed.

Lemma with_target_shaped c ie iw :
  target_shaped (Object c (with_target ie iw ∅)).
Proof.
  assert (ie = VNone \/ ie <> VNone) as [->|Hie]
    by (destruct ie; first [left; reflexivity|right; discriminate]).
  - destruct (with_target_omitted iw ∅) as (Hc & He & Hw).
    split; [exact Hc|]. exists VNone, VNone. auto.
  - destruct (with_target_supplied ie iw ∅ Hie) as (Hc & He & Hw).
    split; [exact Hc|]. exists ie, iw. split; [exact He|].
    split; [exact Hw|]. intros ->. contradiction.
Qed.

Lemma built_target_shaped expect c act :
  built expect c = inr act -> target_shaped act.
Proof.
  intros Hbuilt. pose proof (built_target _ _ _ Hbuilt) as Hfield.
  destruct (with_target_shaped (cls act) (index_elements_of c)
              (index_where_of c)) as (Hc & ie & iw & He & Hw & Himp).
  cbn [dict] in Hc, He, Hw.
  split; [rewrite Hfield by auto; exact Hc|].
  exists ie, iw. rewrite !Hfield by auto. auto.
Qed.

Lemma unchanged_but_cache_refl ob : unchanged_but_cache ob ob.
Proof. repeat split; auto. Qed.

Lemma unchanged_but_cache_trans ob1 ob2 ob3 :
  unchanged_but_cache ob1 ob2 -> unchanged_but_cache ob2 ob3 ->
  unchanged_but_cache ob1 ob3.
Proof.
  intros (Hc1 & Hk1 & Hn1 & He1) (Hc2 & Hk2 & Hn2 & He2).
  split; [congruence|]. split; [auto|].
  split; [intros name Hname; rewrite Hn2, Hn1 by exact Hname; reflexivity|].
  intros Hcls. rewrite He2 by congruence. auto.
Qed.

(** One use of the module changes no object that exists, except that a
    read of [excluded] may add the cache entry to its builder. *)
Lemma step_unchanged_but_cache expect (s s' : store) l ob :
  step expect s s' -> s !! l = Some ob ->
  exists ob', s' !! l = Some ob' /\ unchanged_but_cache ob ob'.
Proof.
  intros Hstep Hl.
  destruct Hstep as [table s r s' Hrun|b c s r s' (o & Hb & _) Hrun
                    |b s r s' (o & Hb & Hcls) Hrun].
  - rewrite insert_run in Hrun. injection Hrun as _ <-.
    exists ob. split; [apply lookup_app_l_Some, Hl|].
    apply unchanged_but_cache_refl.
  - rewrite (invoke_run _ _ _ _ _ Hb) in Hrun.
    exists ob. split; [|apply unchanged_but_cache_refl].
    destruct (built expect c); injection Hrun as _ <-;
      apply lookup_app_l_Some, Hl.
  - destruct (excluded_cases _ _ _ _ _ Hb Hrun)
      as [->|(v & x & y & -> & Hc & _ & _)].
    + exists ob. split; [exact Hl|apply unchanged_but_cache_refl].
    + pose proof (lookup_lt_Some _ _ _ Hl) as Hlt.
      rewrite lookup_app_l by (rewrite length_insert; exact Hlt).
      destruct (decide (l = b)) as [->|Hne].
      * rewrite list_lookup_insert_eq by exact Hlt.
        assert (ob = o) as -> by congruence.
        eexists. split; [reflexivity|].
        split; [reflexivity|]. cbn [dict].
        split; [|split].
        -- intros name v' Hn. rewrite lookup_insert_ne by congruence.
           exact Hn.
        -- intros name Hn. apply lookup_insert_ne. congruence.
        -- intros Hno. contradiction.
      * rewrite list_lookup_insert_ne by congruence.
        exists ob. split; [exact Hl|apply unchanged_but_cache_refl].
Qed.

(** Every clause object of the store after one use of the module either
    was there before, as it is, or has a well-shaped target. *)
Lemma step_clause_origin expect (s s' : store) l ob' :
  step expect s s' -> s' !! l = Some ob' -> is_clause ob' = true ->
  s !! l = Some ob' \/ target_shaped ob'.
Proof.
  intros Hstep Hl Hclause.
  destruct Hstep as [table s r s' Hrun|b c s r s' (o & Hb & Hcls) Hrun
                    |b s r s' (o & Hb & Hcls) Hrun].
  - rewrite insert_run in Hrun. injection Hrun as _ <-.
    apply lookup_app_Some in Hl as [Hl|[_ Hl]]; [auto|].
    destruct (l - length s) as [|n]; [|discriminate Hl].
    injection Hl as <-. discriminate Hclause.
  - rewrite (invoke_run _ _ _ _ _ Hb) in Hrun.
    destruct (built expect c) as [e|act] eqn:Hbuilt;
      injection Hrun as _ <-;
      apply lookup_grown_inv in Hl as [[_ Hl]|[[_ ->]|[_ ->]]]; auto.
    + unfold is_clause in Hclause. rewrite Hcls in Hclause. discriminate.
    + right. apply with_target_shaped.
    + unfold is_clause in Hclause. cbn [clone_with_clause cls] in Hclause.
      rewrite Hcls in Hclause. discriminate.
    + right. eapply built_target_shaped, Hbuilt.
  - destruct (excluded_cases _ _ _ _ _ Hb Hrun)
      as [->|(v & x & y & -> & Hc & Hx & Hy)]; [auto|].
    apply lookup_grown_inv in Hl as [[Hold Hl]|[[_ ->]|[_ ->]]].
    + rewrite length_insert in Hold.
      destruct (decide (l = b)) as [->|Hne].
      * rewrite list_lookup_insert_eq in Hl by exact Hold.
        injection Hl as <-. unfold is_clause in Hclause.
        cbn [cls] in Hclause. rewrite Hcls in Hclause. discriminate.
      * rewrite list_lookup_insert_ne in Hl by congruence. auto.
    + unfold is_clause in Hclause. rewrite Hx in Hclause. discriminate.
    + unfold is_clause in Hclause. rewrite Hy in Hclause. discriminate.
Qed.

Lemma reachable_renderable_witness :
  renderable
    (snd (invoke expect_columns 0 (DoUpdate VNone VNone VNone VNone)
            base_store))
  = true.
Proof.
  apply (reachable_renderable expect_columns).
  apply (rtc_l _ [] base_store).
  - exact (step_insert expect_columns users [] (Ok 0) base_store eq_refl).
  - apply rtc_once.
    apply (step_call expect_columns 0 (DoUpdate VNone VNone VNone VNone)
             base_store _ _
             (ex_intro _ stmt (conj eq_refl eq_refl))
             (surjective_pairing _)).
Defined.

(** *** Properties *)

(** X1. The action attached by a successful [on_conflict_do_update]
    stores the [where] argument as given, [None] included, under
    [update_whereclause], and has exactly five fields: the three target
    fields, [update_values_to_set] and [update_whereclause]. *)
Theorem do_update_action_fields
    expect (s : store) b o ie iw set_ w b' (s' : store) :
  s !! b = Some o ->
  on_conflict_do_update expect b ie iw set_ w s = (Ok b', s') ->
  exists act,
    attached s' b' act
    /\ cls act = OnConflictDoUpdate
    /\ dict act !! "update_whereclause" = Some w
    /\ dom (dict act)
       = ({["constraint_target"; "inferred_target_elements";
            "inferred_target_whereclause"; "update_values_to_set";
            "update_whereclause"]} : gset string).
Proof.
  intros Hb Hrun.
  destruct (invoke_Ok_inv expect _ _ _ (DoUpdate ie iw set_ w) _ _ Hb Hrun)
    as (act & Hbuilt & -> & ->).
  exists act. split; [apply attached_grown|].
  cbn in Hbuilt. destruct (validated expect set_) as [e|ps]; [discriminate|].
  injection Hbuilt as <-. unfold do_update_action. cbn [cls dict].
  split; [reflexivity|]. split; [apply lookup_insert_eq|].
  rewrite !dom_insert_L, with_target_dom. set_solver.
Qed.

Lemma do_update_action_fields_witness :
  exists act,
    attached
      (snd (on_conflict_do_update expect_columns 0 VNone VNone
              (VDict [(VStr "count", VInt 1)]) (VExpr 9) base_store)) 1 act
    /\ cls act = OnConflictDoUpdate
    /\ dict act !! "update_whereclause" = Some (VExpr 9)
    /\ dom (dict act)
       = ({["constraint_target"; "inferred_target_elements";
            "inferred_target_whereclause"; "update_values_to_set";
            "update_whereclause"]} : gset string).
Proof.
  exact (do_update_action_fields
           expect_columns base_store 0 stmt VNone VNone
           (VDict [(VStr "count", VInt 1)]) (VExpr 9) 1 _
           eq_refl (surjective_pairing _)).
Defined.

(** X2. For [dict] arguments, whether [on_conflict_do_update] returns,
    and the exception it raises if not, is decided by the keys alone: two
    calls on the same builder whose [set_] are dicts with the same keys
    in the same order end alike, whatever their values,
    [index_elements], [index_where] and [where] are. *)
Theorem outcome_depends_on_set_keys_only
    expect (s : store) b ie1 iw1 kvs1 w1 ie2 iw2 kvs2 w2 :
  map fst kvs1 = map fst kvs2 ->
  fst (on_conflict_do_update expect b ie1 iw1 (VDict kvs1) w1 s)
  = fst (on_conflict_do_update expect b ie2 iw2 (VDict kvs2) w2 s).
Proof.
  intros Hkeys. destruct (s !! b) as [o|] eqn:Hb.
  - rewrite !(on_conflict_do_update_run _ _ _ _ _ _ _ _ Hb).
    pose proof (validated_fail_by_keys expect (VDict kvs1) (VDict kvs2) Hkeys)
      as H.
    destruct (validated expect (VDict kvs1)), (validated expect (VDict kvs2));
      try contradiction; cbn; congruence.
  - rewrite !on_conflict_do_update_dangling by exact Hb. reflexivity.
Qed.

Lemma outcome_depends_on_set_keys_only_witness :
  fst (on_conflict_do_update expect_columns 0 VNone VNone
         (VDict [(VStr "count", VInt 1); (VInt 5, VInt 2)]) VNone base_store)
  = fst (on_conflict_do_update expect_columns 0 (VList [VStr "id"]) (VExpr 7)
           (VDict [(VStr "count", VExpr 3); (VInt 5, VNone)]) (VExpr 9)
           base_store).
Proof.
  exact (outcome_depends_on_set_keys_only
           expect_columns base_store 0
           VNone VNone [(VStr "count", VInt 1); (VInt 5, VInt 2)] VNone
           (VList [VStr "id"]) (VExpr 7)
           [(VStr "count", VExpr 3); (VInt 5, VNone)] (VExpr 9)
           eq_refl).
Defined.

(** X3. Only the keys of [set_] go through the Coercion Service: two
    services that agree on those keys give the same result and the same
    store, so [index_elements], [index_where], the values and [where]
    are never coerced, and an invalid [set_] is rejected without the
    service being consulted. *)
Theorem only_set_keys_are_coerced
    expect1 expect2 (s : store) b ie iw set_ w :
  (forall key, key ∈ set_keys set_ ->
               expect1 DMLColumnRole key = expect2 DMLColumnRole key) ->
  on_conflict_do_update expect1 b ie iw set_ w s
  = on_conflict_do_update expect2 b ie iw set_ w s.
Proof.
  intros Hagree. destruct (s !! b) as [o|] eqn:Hb.
  - rewrite !(on_conflict_do_update_run _ _ _ _ _ _ _ _ Hb).
    rewrite (validated_agree expect1 expect2 set_ Hagree). reflexivity.
  - rewrite !on_conflict_do_update_dangling by exact Hb. reflexivity.
Qed.

Lemma only_set_keys_are_coerced_witness :
  on_conflict_do_update expect_columns 0 (VList [VInt 5]) (VExpr 7)
    (VDict [(VStr "count", VExpr 3)]) (VExpr 9) base_store
  = on_conflict_do_update expect_names 0 (VList [VInt 5]) (VExpr 7)
      (VDict [(VStr "count", VExpr 3)]) (VExpr 9) base_store.
Proof.
  apply (only_set_keys_are_coerced expect_columns expect_names).
  intros key Hkey. apply list_elem_of_singleton in Hkey as ->. reflexivity.
Defined.

(** X5. No sequence of factory calls, conflict calls and [excluded]
    reads changes an object that already exists, with one exception: a
    builder may gain the [excluded] cache entry it did not have.  So an
    object keeps its class and every attribute it has, a builder keeps
    its post-values clause, and every object that is not a builder, each
    conflict action in particular, stays exactly as it is. *)
Theorem objects_change_only_by_excluded_cache
    expect (s s' : store) l ob :
  rtc (step expect) s s' ->
  s !! l = Some ob ->
  exists ob',
    s' !! l = Some ob'
    /\ cls ob' = cls ob
    /\ (forall name v, dict ob !! name = Some v -> dict ob' !! name = Some v)
    /\ (forall name, name <> "excluded" ->
                     dict ob' !! name = dict ob !! name)
    /\ _post_values_clause ob' = _post_values_clause ob
    /\ (cls ob <> Insert -> ob' = ob).
Proof.
  intros Hrtc Hl.
  assert (H : exists ob', s' !! l = Some ob' /\ unchanged_but_cache ob ob').
  { revert ob Hl. induction Hrtc as [s|s s1 s' Hstep _ IH]; intros ob Hl.
    - exists ob. split; [exact Hl|apply unchanged_but_cache_refl].
    - destruct (step_unchanged_but_cache _ _ _ _ _ Hstep Hl)
        as (ob1 & Hl1 & H1).
      destruct (IH _ Hl1) as (ob' & Hl' & H').
      exists ob'. split; [exact Hl'|].
      eapply unchanged_but_cache_trans; eauto. }
  destruct H as (ob' & Hl' & Hc & Hk & Hn & He).
  exists ob'. repeat (split; [assumption|]).
  split; [|exact He].
  unfold _post_values_clause. rewrite Hn by discriminate. reflexivity.
Qed.

Lemma objects_change_only_by_excluded_cache_witness :
  exists ob',
    snd (excluded 0 base_store) !! 0 = Some ob'
    /\ cls ob' = Insert
    /\ dict ob' !! "table" = Some users
    /\ _post_values_clause ob' = VNone.
Proof.
  destruct (objects_change_only_by_excluded_cache
              expect_columns base_store (snd (excluded 0 base_store)) 0 stmt
              (rtc_once _ _
                 (step_excluded expect_columns 0 base_store _ _
                    (ex_intro _ stmt (conj eq_refl eq_refl))
                    (surjective_pairing _)))
              eq_refl)
    as (ob' & Hl & Hcls & Hkeep & _ & Hpvc & _).
  exists ob'. split; [exact Hl|]. split; [exact Hcls|].
  split; [apply Hkeep; reflexivity|exact Hpvc].
Defined.

(** X6. In every store a program can reach, every instance of the two
    clause classes, the ones abandoned by a failed constructor included,
    has [constraint_target] [None] and both inferred-target fields set,
    the where-clause being [None] whenever the elements are: no entry
    point populates the named-constraint mode, and a where-clause is
    never kept without elements. *)
Theorem reachable_clauses_are_target_shaped expect (s : store) l o :
  reachable expect s ->
  s !! l = Some o ->
  is_clause o = true ->
  dict o !! "constraint_target" = Some VNone
  /\ exists ie iw,
       dict o !! "inferred_target_elements" = Some ie
       /\ dict o !! "inferred_target_whereclause" = Some iw
       /\ (ie = VNone -> iw = VNone).
Proof.
  unfold reachable. intros Hreach.
  apply rtc_nsteps in Hreach as [n Hn].
  revert s l o Hn. induction n as [|n IH]; intros s l o Hn Hl Hclause.
  - inversion Hn; subst. rewrite lookup_nil in Hl. discriminate Hl.
  - apply nsteps_inv_r in Hn as (s0 & Hs0 & Hstep).
    destruct (step_clause_origin _ _ _ _ _ Hstep Hl Hclause) as [Hold|Hnew].
    + exact (IH _ _ _ Hs0 Hold Hclause).
    + exact Hnew.
Qed.

Lemma reachable_clauses_are_target_shaped_witness :
  exists o,
    snd (invoke expect_columns 0 (DoUpdate VNone (VExpr 7) VNone VNone)
           base_store) !! 2 = Some o
    /\ dict o !! "constraint_target" = Some VNone
    /\ exists ie iw,
         dict o !! "inferred_target_elements" = Some ie
         /\ dict o !! "inferred_target_whereclause" = Some iw
         /\ (ie = VNone -> iw = VNone).
Proof.
  eexists. split; [reflexivity|].
  apply (reachable_clauses_are_target_shaped expect_columns
           (snd (invoke expect_columns 0
                   (DoUpdate VNone (VExpr 7) VNone VNone) base_store)) 2).
  - apply (rtc_l _ [] base_store).
    + exact (step_insert expect_columns users [] (Ok 0) base_store eq_refl).
    + apply rtc_once.
      apply (step_call expect_columns 0
               (DoUpdate VNone (VExpr 7) VNone VNone) base_store _ _
               (ex_intro _ stmt (conj eq_refl eq_refl))
               (surjective_pairing _)).
  - reflexivity.
  - reflexivity.
Defined.

(** X7. Two conflict calls made on the same builder, one after the
    other, give two different builders that do not interfere: after the
    second call the first result still refers to its own action, the
    second refers to its own, both are copies of the base that differ
    from it in the post-values clause only, the base is unchanged, and
    the second action is the one that call attaches to any builder in
    any store, so it owes nothing to the first call. *)
Theorem branches_from_one_builder_are_independent
    expect (s : store) b o c1 c2 b1 (s1 : store) b2 (s2 : store) :
  s !! b = Some o ->
  invoke expect b c1 s = (Ok b1, s1) ->
  invoke expect b c2 s1 = (Ok b2, s2) ->
  exists a1 act1 a2 act2,
    b1 <> b2 /\ a1 <> a2
    /\ s2 !! b = Some o
    /\ s2 !! b1 = Some (clone_with_clause o a1)
    /\ s1 !! a1 = Some act1 /\ s2 !! a1 = Some act1
    /\ s2 !! b2 = Some (clone_with_clause o a2)
    /\ s2 !! a2 = Some act2
    /\ (forall (s0 : store) b0 o0 b0' (s0' : store),
          s0 !! b0 = Some o0 ->
          invoke expect b0 c2 s0 = (Ok b0', s0') ->
          attached s0' b0' act2).
Proof.
  intros Hb H1 H2.
  pose proof (lookup_lt_Some _ _ _ Hb) as Hlt.
  destruct (invoke_Ok_inv _ _ _ _ _ _ _ Hb H1) as (act1 & _ & -> & ->).
  set (s1 := s ++ [clone_with_clause o (S (length s)); act1]) in *.
  assert (Hb1 : s1 !! b = Some o).
  { unfold s1. rewrite lookup_grown_old by exact Hlt. exact Hb. }
  assert (Hlen : length s1 = S (S (length s))).
  { unfold s1. rewrite length_app. cbn. lia. }
  destruct (invoke_Ok_inv _ _ _ _ _ _ _ Hb1 H2) as (act2 & Hbuilt & -> & ->).
  exists (S (length s)), act1, (S (length s1)), act2.
  split; [lia|]. split; [lia|].
  split; [apply lookup_app_l_Some, Hb1|].
  split; [apply lookup_app_l_Some, lookup_grown_first|].
  split; [apply lookup_grown_second|].
  split; [apply lookup_app_l_Some, lookup_grown_second|].
  split; [apply lookup_grown_first|].
  split; [apply lookup_grown_second|].
  intros s0 b0 o0 b0' s0' Hb0 Hrun0.
  destruct (invoke_Ok_inv _ _ _ _ _ _ _ Hb0 Hrun0)
    as (act0 & Hbuilt0 & -> & ->).
  assert (act0 = act2) as -> by congruence.
  apply attached_grown.
Qed.

Lemma branches_from_one_builder_are_independent_witness :
  exists a1 act1 a2 act2,
    a1 <> a2
    /\ snd (invoke expect_columns 0
              (DoUpdate VNone VNone (VDict [(VStr "count", VInt 1)]) VNone)
              (snd (invoke expect_columns 0
                      (DoNothing (VList [VStr "id"]) VNone) base_store)))
         !! 1
       = Some (clone_with_clause stmt a1)
    /\ snd (invoke expect_columns 0
              (DoUpdate VNone VNone (VDict [(VStr "count", VInt 1)]) VNone)
              (snd (invoke expect_columns 0
                      (DoNothing (VList [VStr "id"]) VNone) base_store)))
         !! a1
       = Some act1
    /\ snd (invoke expect_columns 0
              (DoUpdate VNone VNone (VDict [(VStr "count", VInt 1)]) VNone)
              (snd (invoke expect_columns 0
                      (DoNothing (VList [VStr "id"]) VNone) base_store)))
         !! 3
       = Some (clone_with_clause stmt a2)
    /\ snd (invoke expect_columns 0
              (DoUpdate VNone VNone (VDict [(VStr "count", VInt 1)]) VNone)
              (snd (invoke expect_columns 0
                      (DoNothing (VList [VStr "id"]) VNone) base_store)))
         !! a2
       = Some act2.
Proof.
  destruct (branches_from_one_builder_are_independent
              expect_columns base_store 0 stmt
              (DoNothing (VList [VStr "id"]) VNone)
              (DoUpdate VNone VNone (VDict [(VStr "count", VInt 1)]) VNone)
              1 _ 3 _ eq_refl (surjective_pairing _) (surjective_pairing _))
    as (a1 & act1 & a2 & act2 & _ & Hne & _ & Hb1 & _ & Ha1 & Hb2 & Ha2 & _).
  exists a1, act1, a2, act2. auto.
Defined.

(** Every builder of a reachable store is bound to a table. *)
Lemma reachable_builders_have_table expect (s : store) l o :
  reachable expect s -> s !! l = Some o -> cls o = Insert ->
  is_Some (dict o !! "table").
Proof.
  unfold reachable. intros Hreach.
  apply rtc_nsteps in Hreach as [n Hn].
  revert s l o Hn. induction n as [|n IH]; intros s l o Hn Hl Hcls.
  - inversion Hn; subst. rewrite lookup_nil in Hl. discriminate Hl.
  - apply nsteps_inv_r in Hn as (s0 & Hs0 & Hstep).
    assert (Hold : forall l0 o0 o',
               s0 !! l0 = Some o0 -> cls o0 = Insert ->
               unchanged_but_cache o0 o' -> is_Some (dict o' !! "table")).
    { intros l0 o0 o' Hl0 Hcls0 (_ & Hkeep & _).
      destruct (IH _ _ _ Hs0 Hl0 Hcls0) as [t Ht]. eauto. }
    destruct Hstep as [table s0 r s Hrun|b c s0 r s (ob & Hb & Hbcls) Hrun
                      |b s0 r s Hbuilder Hrun].
    + rewrite insert_run in Hrun. injection Hrun as _ <-.
      apply lookup_app_Some in Hl as [Hl|[_ Hl]].
      * eapply Hold; [exact Hl|exact Hcls|apply unchanged_but_cache_refl].
      * destruct (l - length s0) as [|k]; [|discriminate Hl].
        injection Hl as <-. cbn. rewrite lookup_insert_eq. eauto.
    + rewrite (invoke_run _ _ _ _ _ Hb) in Hrun.
      destruct (IH _ _ _ Hs0 Hb Hbcls) as [t Ht].
      destruct (built expect c) as [e|act] eqn:Hbuilt;
        injection Hrun as _ <-;
        apply lookup_grown_inv in Hl as [[_ Hl]|[[_ ->]|[_ ->]]];
        try (eapply Hold; [exact Hl|exact Hcls|apply unchanged_but_cache_refl]);
        try discriminate Hcls; eauto.
      * cbn. rewrite lookup_insert_ne by discriminate. eauto.
      * apply built_visit_name in Hbuilt. rewrite Hcls in Hbuilt.
        discriminate Hbuilt.
    + assert (Hs : step expect s0 s) by (eapply step_excluded; eauto).
      destruct Hbuilder as (ob & Hb & Hbcls).
      destruct (excluded_cases _ _ _ _ _ Hb Hrun)
        as [->|(v & x & y & -> & _ & Hx & Hy)].
      * eapply Hold; [exact Hl|exact Hcls|apply unchanged_but_cache_refl].
      * apply lookup_grown_inv in Hl as [[Hlt Hl]|[[_ ->]|[_ ->]]];
          [|congruence|congruence].
        rewrite length_insert in Hlt.
        destruct (lookup_lt_is_Some_2 _ _ Hlt) as [o0 Hl0].
        destruct (step_unchanged_but_cache _ _ _ _ _ Hs Hl0)
          as (o' & Hl' & Hun).
        rewrite lookup_app_l in Hl' by (rewrite length_insert; exact Hlt).
        assert (o' = o) as -> by congruence.
        eapply Hold; [exact Hl0| |exact Hun].
        destruct Hun as (Hc & _). congruence.
Qed.

(** X8. Reading [excluded] on a builder a program can hold never fails:
    in every reachable store every builder is bound to a table, so the
    read returns a namespace, the cached one or a new one. *)
Theorem excluded_returns_on_reachable_builders expect (s : store) b :
  reachable expect s ->
  is_builder s b ->
  exists v (s1 : store), excluded b s = (Ok v, s1).
Proof.
  intros Hreach (o & Hb & Hcls).
  destruct (reachable_builders_have_table _ _ _ _ Hreach Hb Hcls)
    as [table Ht].
  unfold excluded, memoized_property. rewrite Hb.
  destruct (dict o !! "excluded") as [cached|]; [eauto|].
  erewrite bind_Ok by (eapply excluded_fget_run; eauto).
  unfold bind, setattr. rewrite (lookup_app_l_Some _ _ _ _ Hb). eauto.
Qed.

Lemma excluded_returns_on_reachable_builders_witness :
  exists v (s1 : store),
    excluded 1
      (snd (invoke expect_columns 0 (DoNothing VNone VNone) base_store))
    = (Ok v, s1).
Proof.
  apply (excluded_returns_on_reachable_builders expect_columns).
  - apply (rtc_l _ [] base_store).
    + exact (step_insert expect_columns users [] (Ok 0) base_store eq_refl).
    + apply rtc_once.
      apply (step_call expect_columns 0 (DoNothing VNone VNone)
               base_store _ _
               (ex_intro _ stmt (conj eq_refl eq_refl))
               (surjective_pairing _)).
  - eexists. split; reflexivity.
Defined.
